(** * glog: a slog handler for GCP Cloud Logging, and its call-site resolver

    A shallow embedding of [github.com/twopow/glog]:
    - the handler ([GCPHandler], [Handle], [WithAttrs], [WithGroup],
      [addAttrToFields], [levelToGCPSeverity]),
    - the call-site resolver ([outsideCaller]),
    - the process-wide extra fields ([MergeGlobalExtraFields]).

    Go maps are [gmap]s, slices are headers into a store of backing arrays,
    the standard library ([encoding/json] on dynamic values, [time], [runtime],
    [io.Writer]) is an interface the development is parametric in. *)

From Stdlib Require Import ZArith NArith String Ascii List Lia.
From stdpp Require Import base option list gmap strings fin_maps sorting pretty.

Local Open Scope string_scope.
Local Open Scope list_scope.
Local Open Scope nat_scope.

(** ** log/slog: levels, kinds, values, attributes, records *)

Module Slog.

(** [slog.Level] is an [int]; the four named levels. *)
Definition Level := Z.
Definition LevelDebug : Level := (-4)%Z.
Definition LevelInfo : Level := 0%Z.
Definition LevelWarn : Level := 4%Z.
Definition LevelError : Level := 8%Z.

(** A dynamic Go object other than the basic types slog has a kind for.
    [obj_error] is [Some msg] when its dynamic type implements [error], and
    then [msg] is what [Error()] returns. *)
Record Obj := mkObj { obj_repr : string; obj_error : option string }.

Inductive Kind :=
| KindAny | KindBool | KindDuration | KindFloat64 | KindInt64
| KindString | KindTime | KindUint64 | KindGroup | KindLogValuer.

(** [slog.Value]: one constructor per kind. A duration is its [int64] count of
    nanoseconds; a float is its bit pattern; a time is an opaque instant. *)
#[warnings="-register-all"]
Inductive Value :=
| AnyValue (o : Obj)
| BoolValue (b : bool)
| DurationValue (d : Z)
| Float64Value (bits : Z)
| Int64Value (n : Z)
| StringValue (s : string)
| TimeValue (t : Z)
| Uint64Value (n : Z)
| GroupValue (g : list (string * Value))
| LogValuerValue (o : Obj).

Record Attr := mkAttr { Key : string; Val : Value }.

(** The zero [Attr], what [make] fills a fresh array with. *)
Definition zeroAttr : Attr := mkAttr EmptyString (AnyValue (mkObj EmptyString None)).

(** [interface{}]: what [Value.Any] hands out and what the maps hold. *)
Inductive any :=
| go_obj (o : Obj)
| go_bool (b : bool)
| go_duration (d : Z)
| go_float64 (bits : Z)
| go_int64 (n : Z)
| go_string (s : string)
| go_time (t : Z)
| go_uint64 (n : Z)
| go_attrs (g : list (string * Value)).

Definition Value_Kind (v : Value) : Kind :=
  match v with
  | AnyValue _ => KindAny
  | BoolValue _ => KindBool
  | DurationValue _ => KindDuration
  | Float64Value _ => KindFloat64
  | Int64Value _ => KindInt64
  | StringValue _ => KindString
  | TimeValue _ => KindTime
  | Uint64Value _ => KindUint64
  | GroupValue _ => KindGroup
  | LogValuerValue _ => KindLogValuer
  end.

Definition Value_Any (v : Value) : any :=
  match v with
  | AnyValue o => go_obj o
  | BoolValue b => go_bool b
  | DurationValue d => go_duration d
  | Float64Value x => go_float64 x
  | Int64Value n => go_int64 n
  | StringValue s => go_string s
  | TimeValue t => go_time t
  | Uint64Value n => go_uint64 n
  | GroupValue g => go_attrs g
  | LogValuerValue o => go_obj o
  end.

(** [Value.Duration] panics on a value of another kind; the handler calls it
    under the kind test only. *)
Definition Value_Duration (v : Value) : Z :=
  match v with DurationValue d => d | _ => 0%Z end.

(** [time.Duration.Milliseconds]: [int64(d) / 1e6], Go's division, which
    truncates toward zero. *)
Definition Milliseconds (d : Z) : Z := Z.quot d 1000000.

(** The type assertion [x.(error)]: the [Error()] text when it succeeds. *)
Definition as_error (x : any) : option string :=
  match x with go_obj o => obj_error o | _ => None end.

(** [slog.Record], as far as the handler reads it: [Attrs] walks [RAttrs]
    in order. *)
Record Record_ := mkRecord {
  RTime : Z;
  RMessage : string;
  RLevel : Level;
  RPC : N;
  RAttrs : list Attr
}.

End Slog.

Export Slog.

(** ** Slices of attributes over a store of backing arrays *)

Module Slices.

Definition loc := positive.

(** A slice header: backing array, offset of the first element, length and
    capacity. *)
Record slice := mkSlice { s_arr : loc; s_off : nat; s_len : nat; s_cap : nat }.

Abbreviation arrays := (gmap loc (list Attr)).

Definition array_of (σ : arrays) (l : loc) : list Attr := default [] (σ !! l).

(** The elements a slice shows. *)
Definition elems (σ : arrays) (s : slice) : list Attr :=
  take (s_len s) (drop (s_off s) (array_of σ (s_arr s))).

(** A slice header that lies within its backing array. A nil slice has no
    backing array, offset 0 and length 0. *)
Definition slice_ok (σ : arrays) (s : slice) : Prop :=
  s_off s + s_len s ≤ length (array_of σ (s_arr s)).

(** [make([]slog.Attr, n)]: a fresh array of [n] zero attributes. *)
Definition make (n : nat) (σ : arrays) : slice * arrays :=
  let l := fresh (dom σ) in
  (mkSlice l 0 n n, <[l := replicate n zeroAttr]> σ).

(** [s[k:]]. *)
Definition slice_from (s : slice) (k : nat) : slice :=
  mkSlice (s_arr s) (s_off s + k) (s_len s - k) (s_cap s - k).

(** [copy(dst, src)]: the first [min(len(dst), len(src))] elements of [src],
    read before any is written, overwrite the front of [dst]. *)
Definition copy (dst src : slice) (σ : arrays) : arrays :=
  let n := Nat.min (s_len dst) (s_len src) in
  let xs := take n (elems σ src) in
  <[s_arr dst := list_inserts (s_off dst) xs (array_of σ (s_arr dst))]> σ.

End Slices.

Export Slices.

(** ** The Go standard library the package calls *)

(** [runtime.Frame], the fields the package reads. *)
Record Frame := mkFrame { FPC : N; Function : string; File : string; Line : Z }.

Definition zeroFrame : Frame := mkFrame 0%N EmptyString EmptyString 0%Z.

(** A Go [error] value. *)
Inductive error := mkError (msg : string).

Inductive result (A : Type) :=
| Ok (a : A)
| Err (e : error).
Arguments Ok {A} a.
Arguments Err {A} e.

(** An [io.Writer] is named by a number; the world keeps what was written. *)
Definition Writer := nat.

(** What the package takes from the standard library and does not define:
    symbolisation of a program counter, the RFC3339Nano rendering of an
    instant in UTC, [encoding/json]'s text for a string, an [int] and a
    dynamically typed value (which may fail: an unsupported type or value, a
    failing [MarshalJSON]), and the [error] a writer's [Write] returns for a
    line, given everything written so far ([None] is [nil]). *)
Class GoLib := {
  frame_of_pc : N → Frame;
  format_RFC3339Nano : Z → string;
  json_string : string → string;
  json_int : Z → string;
  json_any : any → result string;
  writer_Write : Writer → list (Writer * string) → string → option error
}.

(** *** runtime.Callers and runtime.CallersFrames *)

Module Runtime.

(** [runtime.Callers(skip, pcs)]: [stack] is the active call stack as return
    program counters, innermost first, entry 0 being [Callers] itself; at most
    [len(pcs)] of them are stored, from entry [skip] on. *)
Definition Callers (skip buf : nat) (stack : list N) : list N :=
  take buf (drop skip stack).

(** [runtime.CallersFrames(pcs)]: the iterator is the program counters yet to
    be symbolised. *)
Definition CallersFrames (pcs : list N) : list N := pcs.

(** [Frames.Next]: the next frame, whether a further call returns a valid
    frame, and the iterator afterwards. On an exhausted iterator the frame is
    the zero [Frame]. *)
Definition Next `{GoLib} (frames : list N) : Frame * bool * list N :=
  match frames with
  | [] => (zeroFrame, false, [])
  | pc :: rest => (frame_of_pc pc, negb (bool_decide (rest = [])), rest)
  end.

End Runtime.

(** *** strings.Contains *)

Fixpoint Contains (s substr : string) : bool :=
  String.prefix substr s ||
  match s with
  | EmptyString => false
  | String _ s' => Contains s' substr
  end.

(** ** source.go *)

Module Source.

Definition pkgPrefix : string := "github.com/twopow/glog.".

Definition depth : nat := 16.

(** The [for] loop of [outsideCaller], one iteration per unit of fuel;
    [None] is fuel running out. *)
Fixpoint scan `{GoLib} (fuel : nat) (frames : list N) : option N :=
  match fuel with
  | 0 => None
  | S fuel' =>
      let '(f, more, frames') := Runtime.Next frames in
      if negb (Contains (Function f) pkgPrefix) then Some (FPC f)
      else if negb more then Some 0%N
      else scan fuel' frames'
  end.

(** [outsideCaller], called with [stack] active ([stack]'s entry 1 is
    [outsideCaller] itself). *)
Definition outsideCaller `{GoLib} (stack : list N) : option N :=
  let pcs := Runtime.Callers 2 depth stack in
  let frames := Runtime.CallersFrames pcs in
  scan (S depth) frames.

End Source.

(** ** JSON documents and [json.Marshal] *)

Module JSON.

#[warnings="-register-all"]
Inductive json :=
| JString (s : string)
| JInt (n : Z)
| JAny (x : any)
| JObject (members : list (string * json)).

Definition comma : string := ",".
Definition colon : string := ":".
Definition lbrace : string := "{".
Definition rbrace : string := "}".

Fixpoint join (sep : string) (parts : list string) : string :=
  match parts with
  | [] => EmptyString
  | [p] => p
  | p :: ps => p +:+ sep +:+ join sep ps
  end.

(** The compact text of a document; values of dynamic type are left to the
    encoder, whose error ends the encoding. *)
Fixpoint encode `{GoLib} (j : json) : result string :=
  match j with
  | JString s => Ok (json_string s)
  | JInt n => Ok (json_int n)
  | JAny x => json_any x
  | JObject members =>
      let fix encode_members (ms : list (string * json)) : result (list string) :=
        match ms with
        | [] => Ok []
        | (k, v) :: ms' =>
            match encode v with
            | Err e => Err e
            | Ok t =>
                match encode_members ms' with
                | Err e => Err e
                | Ok ts => Ok ((json_string k +:+ colon +:+ t) :: ts)
                end
            end
        end in
      match encode_members members with
      | Err e => Err e
      | Ok parts => Ok (lbrace +:+ join comma parts +:+ rbrace)
      end
  end.

(** Keys of a map are encoded in sorted order. *)
Definition key_le (a b : string * any) : Prop := String.leb a.1 b.1 = true.

#[local] Instance key_le_dec : RelDecision key_le.
Proof. intros a b. unfold key_le. apply _. Defined.

Definition of_map (m : gmap string any) : json :=
  JObject ((λ kv, (kv.1, JAny kv.2)) <$> merge_sort key_le (map_to_list m)).

(** The keys of an object, in order; no keys for another document. *)
Definition keys (j : json) : list string :=
  match j with JObject members => members.*1 | _ => [] end.

Definition member (k : string) (j : json) : option json :=
  match j with
  | JObject members => snd <$> List.find (λ kv, String.eqb kv.1 k) members
  | _ => None
  end.

End JSON.

Export JSON.

(** ** The handler *)

Module Handler.

(** [GCPHandler]. *)
Record GCPHandler := mkHandler {
  w : Writer;
  level : Level;
  attrs : slice;
  group : string
}.

Record sourceLocation := mkSourceLocation {
  SLFile : string;
  SLLine : Z;
  SLFunction : string
}.

(** [gcpLogEntry]; a nil [*sourceLocation] is [None]. *)
Record gcpLogEntry := mkEntry {
  Severity : string;
  Message : string;
  Timestamp : string;
  SourceLocation : option sourceLocation;
  Context : gmap string any;
  Extra : gmap string any
}.

(** What a program of the package runs in: the backing arrays of its slices,
    the package variable [globalExtraFields], and every [Write] made so far,
    oldest first. *)
Record World := mkWorld {
  heap : arrays;
  globalExtraFields : gmap string any;
  written : list (Writer * string)
}.

Definition sourceLocationKey : string := "logging.googleapis.com/sourceLocation".

(** [json.Marshal] of a [gcpLogEntry] follows the struct tags: the fields in
    declaration order under their tag names, [SourceLocation] left out when it
    is nil ([omitempty]). *)
Definition entry_json (e : gcpLogEntry) : json :=
  JObject
    ([("severity", JString (Severity e));
      ("message", JString (Message e));
      ("timestamp", JString (Timestamp e))]
     ++ match SourceLocation e with
        | Some sl =>
            [(sourceLocationKey,
              JObject [("file", JString (SLFile sl));
                       ("line", JInt (SLLine sl));
                       ("function", JString (SLFunction sl))])]
        | None => []
        end
     ++ [("context", of_map (Context e)); ("extra", of_map (Extra e))]).

Definition Marshal `{GoLib} (e : gcpLogEntry) : result string :=
  encode (entry_json e).

Definition newline : string := String "010"%char EmptyString.

(** [levelToGCPSeverity]. *)
Definition levelToGCPSeverity (level : Level) : string :=
  if (level >=? LevelError)%Z then "ERROR"
  else if (level >=? LevelWarn)%Z then "WARNING"
  else if (level >=? LevelInfo)%Z then "INFO"
  else "DEBUG".

(** [addAttrToFields]. *)
Definition addAttrToFields (fields : gmap string any) (attr : Attr) : gmap string any :=
  let attr :=
    match Value_Kind (Val attr) with
    | KindAny =>
        match as_error (Value_Any (Val attr)) with
        | Some msg => mkAttr (Key attr) (StringValue msg)
        | None => attr
        end
    | KindDuration =>
        mkAttr (Key attr) (Int64Value (Milliseconds (Value_Duration (Val attr))))
    | _ => attr
    end in
  <[Key attr := Value_Any (Val attr)]> fields.

(** [NewGCPHandler]. *)
Definition NewGCPHandler (w : Writer) (level : Level) (s : World) : GCPHandler * World :=
  let '(a, σ) := make 0 (heap s) in
  (mkHandler w level a EmptyString, mkWorld σ (globalExtraFields s) (written s)).

(** [Enabled]. *)
Definition Enabled (h : GCPHandler) (l : Level) : bool := (l >=? level h)%Z.

Definition set_SourceLocation (e : gcpLogEntry) (sl : option sourceLocation) : gcpLogEntry :=
  mkEntry (Severity e) (Message e) (Timestamp e) sl (Context e) (Extra e).

Definition set_Context (e : gcpLogEntry) (c : gmap string any) : gcpLogEntry :=
  mkEntry (Severity e) (Message e) (Timestamp e) (SourceLocation e) c (Extra e).

(** [Handle] up to the call of [json.Marshal]: the entry it builds. *)
Definition buildEntry `{GoLib} (h : GCPHandler) (r : Record_) (s : World) : gcpLogEntry :=
  let severity := levelToGCPSeverity (RLevel r) in
  let entry :=
    mkEntry severity (RMessage r) (format_RFC3339Nano (RTime r)) None ∅
            (globalExtraFields s) in
  let shouldLogSource :=
    (RLevel r =? LevelDebug)%Z || (RLevel r =? LevelError)%Z in
  let entry :=
    if negb (RPC r =? 0)%N && shouldLogSource then
      let '(f, _, _) := Runtime.Next (Runtime.CallersFrames [RPC r]) in
      set_SourceLocation entry (Some (mkSourceLocation (File f) (Line f) (Function f)))
    else entry in
  let entry :=
    foldl (λ e attr, set_Context e (addAttrToFields (Context e) attr))
          entry (elems (heap s) (attrs h)) in
  let entry :=
    foldl (λ e attr, set_Context e (addAttrToFields (Context e) attr))
          entry (RAttrs r) in
  entry.

(** [Handle]: the returned [error] ([None] is [nil]) and the world after. *)
Definition Handle `{GoLib} (h : GCPHandler) (r : Record_) (s : World) : option error * World :=
  let entry := buildEntry h r s in
  match Marshal entry with
  | Err err => (Some err, s)
  | Ok b =>
      let b := (b +:+ newline) in
      let err := writer_Write (w h) (written s) b in
      (err, mkWorld (heap s) (globalExtraFields s) (written s ++ [(w h, b)]))
  end.

(** [WithAttrs]. *)
Definition WithAttrs (h : GCPHandler) (attrs' : slice) (s : World) : GCPHandler * World :=
  let '(newAttrs, σ) := make (s_len (attrs h) + s_len attrs') (heap s) in
  let σ := copy newAttrs (attrs h) σ in
  let σ := copy (slice_from newAttrs (s_len (attrs h))) attrs' σ in
  (mkHandler (w h) (level h) newAttrs (group h),
   mkWorld σ (globalExtraFields s) (written s)).

(** [WithGroup]. *)
Definition WithGroup (h : GCPHandler) (name : string) : GCPHandler :=
  mkHandler (w h) (level h) (attrs h) name.

End Handler.

Export Handler.

(** ** logger.go: the process-wide extra fields *)

Module Logger.

(** [MergeGlobalExtraFields]: [order] is the order in which [range] visits
    the entries of [extraFields], which Go leaves unspecified. *)
Definition MergeGlobalExtraFields_in (order : list (string * any)) (s : World) : World :=
  mkWorld (heap s)
          (foldl (λ g kv, <[kv.1 := kv.2]> g) (globalExtraFields s) order)
          (written s).

Definition MergeGlobalExtraFields (extraFields : gmap string any) (s : World) : World :=
  MergeGlobalExtraFields_in (map_to_list extraFields) s.

End Logger.

Export Logger.

(** ** A concrete standard library, for running the model *)

Module Sample.

Definition dq : string := String "034"%char EmptyString.

Definition quote (s : string) : string := dq +:+ s +:+ dq.

(** Program counters 1 and 2 lie in the package, 7 in an application. *)
Definition frames (pc : N) : Frame :=
  if (pc =? 1)%N then mkFrame 1 "github.com/twopow/glog.log" "logger.go" 150
  else if (pc =? 2)%N then mkFrame 2 "github.com/twopow/glog.Info" "logger.go" 94
  else if (pc =? 7)%N then mkFrame 7 "main.main" "main.go" 12
  else mkFrame pc EmptyString EmptyString 0.

Definition encode_any (x : any) : result string :=
  match x with
  | go_bool true => Ok "true"
  | go_bool false => Ok "false"
  | go_int64 n => Ok (pretty n)
  | go_uint64 n => Ok (pretty n)
  | go_string s => Ok (quote s)
  | _ => Err (mkError "json: unsupported type")
  end.

(** Writer 0 accepts every line, any other writer rejects every line. *)
Definition lib : GoLib := {|
  frame_of_pc := frames;
  format_RFC3339Nano := λ _, "2026-01-02T03:04:05.000000006Z";
  json_string := quote;
  json_int := pretty;
  json_any := encode_any;
  writer_Write := λ w _ _, if Nat.eqb w 0 then None else Some (mkError "closed")
|}.


End Sample.

(** ** Notions the properties are stated with *)

Section Notions.
Context `{GoLib}.

(** The test under which [Handle] attaches a source location, and the
    location it then attaches: the symbolised [PC] of the record. *)
Definition gate (r : Record_) : bool :=
  negb (RPC r =? 0)%N && ((RLevel r =? LevelDebug)%Z || (RLevel r =? LevelError)%Z).

Definition located (r : Record_) : sourceLocation :=
  let f := frame_of_pc (RPC r) in
  mkSourceLocation (File f) (Line f) (Function f).

(** A program counter whose function lies outside the package. *)
Definition outside (pc : N) : bool :=
  negb (Contains (Function (frame_of_pc pc)) Source.pkgPrefix).

(** A run of [Handle] calls, each on the world the previous one left. *)
Definition Handle_all (calls : list (GCPHandler * Record_)) (s : World) : World :=
  foldl (λ s c, (Handle c.1 c.2 s).2) s calls.

(** [σ'] keeps every backing array of [σ] as it is. *)
Definition extends (σ σ' : arrays) : Prop :=
  ∀ l, is_Some (σ !! l) → σ' !! l = σ !! l.

End Notions.

(** ** The model run on concrete inputs *)

Module Run.

Import Sample.

(** A world whose only backing array holds the attribute x = 1, a handler
    holding that array as its attributes, and two empty slices. *)
Definition one_attr : World :=
  mkWorld {[ 1%positive := [mkAttr "x" (Int64Value 1)] ]} ∅ [].

Definition hx : GCPHandler := mkHandler 0 LevelInfo (mkSlice 1%positive 0 1 1) EmptyString.

Definition nil_slice : slice := mkSlice 1%positive 0 0 0.

(** The same attribute held by a handler made through the package:
    [NewGCPHandler(w, info).WithAttrs(x = 1)], and the world that leaves. *)
Definition built : GCPHandler * World :=
  WithAttrs (NewGCPHandler 0 LevelInfo one_attr).1 (mkSlice 1%positive 0 1 1)
            (NewGCPHandler 0 LevelInfo one_attr).2.

Definition plain : Record_ := mkRecord 0 "started" LevelInfo 0 [].

(** A world with two caller-made arrays, a = 1 and b = 2; c = 3, a = 4. *)
Definition two_arrays : World :=
  mkWorld {[ 1%positive := [mkAttr "a" (Int64Value 1); mkAttr "b" (Int64Value 2)];
             2%positive := [mkAttr "c" (Int64Value 3); mkAttr "a" (Int64Value 4)] ]}
          ∅ [].

Definition h0 : GCPHandler := mkHandler 0 LevelInfo (mkSlice 3%positive 0 0 0) EmptyString.

Definition sliceA : slice := mkSlice 1%positive 0 2 2.
Definition sliceB : slice := mkSlice 2%positive 0 2 2.

Definition with_b : Record_ :=
  mkRecord 0 "request" LevelInfo 0 [mkAttr "b" (StringValue "late")].


(** A record one of whose attributes the encoder rejects. *)
Definition unencodable : Record_ :=
  mkRecord 0 "ratio" LevelInfo 0 [mkAttr "nan" (Float64Value 9221120237041090560)].

(** A handler on a writer that rejects every line. *)
Definition h_closed : GCPHandler := mkHandler 1 LevelInfo nil_slice EmptyString.

(** The call stack of an application's call of [Info]: [runtime.Callers],
    [outsideCaller], [log], [Info], [main.main], the runtime. *)
Definition app_stack : list N := [100; 101; 1; 2; 7; 9]%N.

End Run.

(** ** logger.go: the package logger, the context plumbing, the facade *)

Module Facade.

(** [os.Stdout] as a writer. *)
Definition os_Stdout : Writer := 0.

(** The package variables beside the world: [logger] is nil ([None]) until
    [NewLogger] runs. A [*slog.Logger] made by [slog.New] is the handler it
    wraps. *)
Record Package := mkPackage { world : World; logger : option GCPHandler }.

(** [NewLogger]: the handler of the logger it returns, and the package after. *)
Definition NewLogger (lvl : string) (p : Package) : GCPHandler * Package :=
  let logLevel :=
    if String.eqb lvl "debug" then LevelDebug
    else if String.eqb lvl "info" then LevelInfo
    else if String.eqb lvl "warn" then LevelWarn
    else if String.eqb lvl "error" then LevelError
    else LevelDebug in
  let '(handler, s) := NewGCPHandler os_Stdout logLevel (world p) in
  (handler, mkPackage s (Some handler)).

(** The loggers a context can carry: one over a [GCPHandler], the one
    [Discard] makes, and [slog.Default()]. *)
Inductive Logger :=
| LoggerOf (h : GCPHandler)
| DiscardLogger
| DefaultLogger.

(** [Discard]. *)
Definition Discard : Logger := DiscardLogger.

(** [context.Context]: keys are the package's [loggerKey] (of the unexported
    type [contextKey]) or keys of other types; a value is a [*slog.Logger],
    nil included, or something else. *)
Inductive ctxKey :=
| loggerKey
| otherKey (name : string).

Inductive ctxVal :=
| LoggerVal (l : option Logger)
| OtherVal (x : any).

Inductive Ctx :=
| Background
| WithValue (parent : Ctx) (k : ctxKey) (v : ctxVal).

Definition ctxKey_eqb (a b : ctxKey) : bool :=
  match a, b with
  | loggerKey, loggerKey => true
  | otherKey x, otherKey y => String.eqb x y
  | _, _ => false
  end.

(** [ctx.Value(key)]: the value of the nearest enclosing [WithValue] of the
    key; [None] is the nil interface. *)
Fixpoint Ctx_Value (ctx : Ctx) (key : ctxKey) : option ctxVal :=
  match ctx with
  | Background => None
  | WithValue parent k v => if ctxKey_eqb k key then Some v else Ctx_Value parent key
  end.

(** [FromContext]: the result is a [*slog.Logger], [None] being nil. *)
Definition FromContext (ctx : Ctx) : option Logger :=
  match Ctx_Value ctx loggerKey with
  | Some (LoggerVal l) => l
  | _ => Some DefaultLogger
  end.

(** [WithLogger]. *)
Definition WithLogger (ctx : Ctx) (l : option Logger) : Ctx :=
  WithValue ctx loggerKey (LoggerVal l).

(** [slog.NewRecord] and [Record.AddAttrs], which leaves out empty groups. *)
Definition NewRecord (t : Z) (lvl : Level) (msg : string) (pc : N) : Record_ :=
  mkRecord t msg lvl pc [].

Definition isEmptyGroup (v : Value) : bool :=
  match v with GroupValue [] => true | _ => false end.

Definition Record_AddAttrs (r : Record_) (attrs' : list Attr) : Record_ :=
  mkRecord (RTime r) (RMessage r) (RLevel r) (RPC r)
           (RAttrs r ++ List.filter (λ a, negb (isEmptyGroup (Val a))) attrs').

(** [logAttrs], run when [time.Now()] reads [now] and with [stack] active at
    the call of [runtime.Callers] in [outsideCaller]. [None] is a run that
    does not return: the nil-pointer panic of [logger.Enabled] on a nil
    [logger]. The error of [Handle] is dropped. *)
Definition logAttrs `{GoLib} (stack : list N) (now : Z) (ctx : Ctx)
    (lvl : Level) (msg : string) (attrs' : list Attr) (p : Package) : option Package :=
  match logger p with
  | None => None
  | Some h =>
      if negb (Enabled h lvl) then Some p
      else
        match Source.outsideCaller stack with
        | None => None
        | Some pc =>
            let r := Record_AddAttrs (NewRecord now lvl msg pc) attrs' in
            let '(_, s) := Handle h r (world p) in
            Some (mkPackage s (logger p))
        end
  end.

(** [LogAttrs]. *)
Definition LogAttrs `{GoLib} (stack : list N) (now : Z) (ctx : Ctx)
    (lvl : Level) (msg : string) (attrs' : list Attr) (p : Package) : option Package :=
  logAttrs stack now ctx lvl msg attrs' p.

End Facade.

Export Facade.

(** ** Further concrete inputs *)

Module Cases.

(** One caller-made array of four attributes and three slices of it: the
    first two, the last two, and all four. *)
Definition four : World :=
  mkWorld {[ 1%positive := [mkAttr "a" (Int64Value 1); mkAttr "b" (Int64Value 2);
                            mkAttr "c" (Int64Value 3); mkAttr "a" (Int64Value 4)] ]}
          ∅ [].

Definition front2 : slice := mkSlice 1%positive 0 2 4.
Definition back2 : slice := mkSlice 1%positive 2 2 2.
Definition all4 : slice := mkSlice 1%positive 0 4 4.
Definition none : slice := mkSlice 1%positive 4 0 0.

(** A handler without attributes of its own, on writer 0. *)
Definition bare : GCPHandler := mkHandler 0 LevelInfo none EmptyString.

(** A handler holding the first two attributes. *)
Definition holds2 : GCPHandler := mkHandler 0 LevelWarn front2 EmptyString.

Definition rec_b : Record_ :=
  mkRecord 0 "request" LevelWarn 0
           [mkAttr "b" (StringValue "first"); mkAttr "b" (StringValue "last")].

End Cases.

(** ** Further notions the properties are stated with *)

Section MoreNotions.
Context `{GoLib}.

Definition is_Err {A : Type} (x : result A) : Prop := ∃ e, x = Err e.

(** The members of an object encoded one after the other, as [encode] does
    it for an object. *)
Fixpoint encode_list (ms : list (string * json)) : result (list string) :=
  match ms with
  | [] => Ok []
  | (k, v) :: ms' =>
      match encode v with
      | Err e => Err e
      | Ok t =>
          match encode_list ms' with
          | Err e => Err e
          | Ok ts => Ok ((json_string k +:+ colon +:+ t) :: ts)
          end
      end
  end.

(** The line [Handle] hands to the writer for a record, if the entry
    marshals. *)
Definition line_of (h : GCPHandler) (r : Record_) (s : World) : option (Writer * string) :=
  match Marshal (buildEntry h r s) with
  | Ok b => Some (w h, b +:+ newline)
  | Err _ => None
  end.

(** The severities in rising order. *)
Definition severity_rank (sev : string) : nat :=
  if String.eqb sev "DEBUG" then 0
  else if String.eqb sev "INFO" then 1
  else if String.eqb sev "WARNING" then 2
  else 3.

End MoreNotions.

(** * Properties *)

(** ** Severity and threshold *)


(** C4. The severity mapper is total and returns one of the four severity
    names, chosen by comparing the level with the error, warn and info
    cutoffs from the top down; a level above error maps to ERROR. *)
Theorem levelToGCPSeverity_thresholds (l : Level) :
  (((LevelError ≤ l)%Z ∧ levelToGCPSeverity l = "ERROR") ∨
   ((LevelWarn ≤ l < LevelError)%Z ∧ levelToGCPSeverity l = "WARNING") ∨
   ((LevelInfo ≤ l < LevelWarn)%Z ∧ levelToGCPSeverity l = "INFO") ∨
   ((l < LevelInfo)%Z ∧ levelToGCPSeverity l = "DEBUG")) ∧
  ((LevelError < l)%Z → levelToGCPSeverity l = "ERROR").
Proof.
  unfold levelToGCPSeverity. rewrite !Z.geb_leb.
  destruct (Z.leb_spec LevelError l) as [He|He].
  { split; [left|]; done. }
  split; [|lia].
  destruct (Z.leb_spec LevelWarn l) as [Hw|Hw]; [right; left; done|].
  destruct (Z.leb_spec LevelInfo l) as [Hi|Hi]; [right; right; left; done|].
  right; right; right; done.
Qed.

Lemma levelToGCPSeverity_thresholds_witness :
  levelToGCPSeverity 12%Z = "ERROR" ∧ levelToGCPSeverity 5%Z = "WARNING" ∧
  levelToGCPSeverity (-7)%Z = "DEBUG".
Proof.
  split; [apply (levelToGCPSeverity_thresholds 12%Z); unfold LevelError; lia|].
  split; reflexivity.
Defined.

(** C6. [Enabled] is true exactly when the level is at or above the
    handler's threshold; it is a function of the two levels alone. *)
Theorem Enabled_iff_threshold (h : GCPHandler) (l : Level) :
  Enabled h l = true ↔ (level h ≤ l)%Z.
Proof. unfold Enabled. apply Z.geb_le. Qed.

(** ** The attribute normaliser *)

Lemma Milliseconds_truncates (d : Z) :
  ((0 ≤ d → 1000000 * Milliseconds d ≤ d < 1000000 * (Milliseconds d + 1)) ∧
   (d ≤ 0 → 1000000 * (Milliseconds d - 1) < d ≤ 1000000 * Milliseconds d))%Z.
Proof.
  unfold Milliseconds.
  pose proof (Z.quot_rem' d 1000000) as Hqr.
  split; intros Hd.
  - pose proof (Z.rem_bound_pos d 1000000 Hd ltac:(lia)). lia.
  - pose proof (Z.rem_bound_pos_neg d 1000000 ltac:(lia) Hd). lia.
Qed.



(** ** What [Handle] builds *)

Section Entry.
Context `{GoLib}.

Lemma set_Context_id (e : gcpLogEntry) : set_Context e (Context e) = e.
Proof. by destruct e. Qed.

Lemma foldl_set_Context (l : list Attr) (e : gcpLogEntry) :
  foldl (λ e attr, set_Context e (addAttrToFields (Context e) attr)) e l
  = set_Context e (foldl addAttrToFields (Context e) l).
Proof.
  revert e. induction l as [|a l IH]; intros e; simpl.
  - by rewrite set_Context_id.
  - rewrite IH. by destruct e.
Qed.


Lemma buildEntry_fields (h : GCPHandler) (r : Record_) (s : World) :
  buildEntry h r s =
  mkEntry (levelToGCPSeverity (RLevel r)) (RMessage r)
          (format_RFC3339Nano (RTime r))
          (if gate r then Some (located r) else None)
          (foldl addAttrToFields ∅ (elems (heap s) (attrs h) ++ RAttrs r))
          (globalExtraFields s).
Proof.
  unfold buildEntry, gate, located. rewrite !foldl_set_Context, foldl_app.
  destruct (negb (RPC r =? 0)%N && _); reflexivity.
Qed.

Lemma gate_true (r : Record_) :
  gate r = true ↔ (RLevel r = LevelDebug ∨ RLevel r = LevelError) ∧ RPC r ≠ 0%N.
Proof.
  unfold gate. rewrite andb_true_iff, orb_true_iff, negb_true_iff.
  rewrite !Z.eqb_eq, N.eqb_neq. tauto.
Qed.

Lemma keys_entry_json (e : gcpLogEntry) :
  keys (entry_json e) =
  ["severity"; "message"; "timestamp"]
  ++ (if SourceLocation e is Some _ then [sourceLocationKey] else [])
  ++ ["context"; "extra"].
Proof. unfold entry_json. by destruct (SourceLocation e). Qed.





(** C8. [Handle] fails exactly when marshalling the entry fails or the
    writer's [Write] fails. When marshalling fails nothing is written and the
    world is as before; otherwise exactly one [Write] is made, of the encoded
    entry followed by one newline, and its error is what [Handle] returns.
    Nothing else of the world changes. *)
Theorem Handle_result (h : GCPHandler) (r : Record_) (s : World) :
  let e := buildEntry h r s in
  let out := Handle h r s in
  (is_Some out.1 ↔
     (∃ err, Marshal e = Err err) ∨
     (∃ b, Marshal e = Ok b ∧ is_Some (writer_Write (w h) (written s) (b +:+ newline)))) ∧
  (∀ err, Marshal e = Err err → out = (Some err, s)) ∧
  (∀ b, Marshal e = Ok b →
     out.1 = writer_Write (w h) (written s) (b +:+ newline) ∧
     written out.2 = written s ++ [(w h, (b +:+ newline))]) ∧
  (∃ ws, written out.2 = written s ++ ws ∧ length ws ≤ 1) ∧
  heap out.2 = heap s ∧ globalExtraFields out.2 = globalExtraFields s.
Proof.
  intros e out. subst e out. unfold Handle.
  destruct (Marshal (buildEntry h r s)) as [b|err]; simpl.
  - split.
    { split; [intros Hs; right; eauto|].
      intros [[err Herr]|[b' [Hb Hs]]]; [discriminate|]. by injection Hb as <-. }
    split; [discriminate|]. split; [by intros b' [= <-]|].
    split; [|done]. eexists; split; [done|]. simpl; lia.
  - split.
    { split; [intros _; left; eauto|]. intros _. eauto. }
    split; [by intros err' [= <-]|]. split; [discriminate|].
    split; [|done]. exists []. split; [by rewrite app_nil_r|simpl; lia].
Qed.

(** C9. [WithGroup] returns a handler with the given group and the
    receiver's writer, threshold and attribute slice, and [Handle] does for it
    exactly what it does for the receiver: same entry, same result, same
    world. *)
Theorem WithGroup_same_output (h : GCPHandler) (g : string) (r : Record_) (s : World) :
  group (WithGroup h g) = g ∧
  w (WithGroup h g) = w h ∧
  level (WithGroup h g) = level h ∧
  attrs (WithGroup h g) = attrs h ∧
  buildEntry (WithGroup h g) r s = buildEntry h r s ∧
  Handle (WithGroup h g) r s = Handle h r s.
Proof. repeat split. Qed.

End Entry.

(** ** The call-site resolver *)

Section Resolver.
Context `{GoLib}.


Lemma scan_first_outside (frames : list N) :
  ∀ fuel, length frames < fuel →
  Source.scan fuel frames =
  Some (match List.find outside frames with
        | Some pc => FPC (frame_of_pc pc)
        | None => 0%N
        end).
Proof.
  induction frames as [|pc rest IH]; intros fuel Hfuel.
  - destruct fuel as [|fuel]; [simpl in Hfuel; lia|]. reflexivity.
  - destruct fuel as [|fuel]; [simpl in Hfuel; lia|].
    simpl in Hfuel. simpl. unfold outside at 1.
    destruct (negb (Contains (Function (frame_of_pc pc)) Source.pkgPrefix)); [done|].
    destruct rest as [|pc' rest']; [done|].
    rewrite bool_decide_eq_false_2 by done. simpl negb.
    apply IH. simpl in *. lia.
Qed.

Lemma find_first_outside (pre post : list N) (pc : N) :
  Forall (λ p, outside p = false) pre → outside pc = true →
  List.find outside (pre ++ pc :: post) = Some pc.
Proof.
  induction 1 as [|p pre Hp _ IH]; intros Hpc; simpl.
  - by rewrite Hpc.
  - rewrite Hp. by apply IH.
Qed.

Lemma find_none_outside (frames : list N) :
  Forall (λ p, outside p = false) frames → List.find outside frames = None.
Proof. induction 1 as [|p l Hp _ IH]; simpl; [done|]. by rewrite Hp. Qed.

(** C3. [outsideCaller] looks at no more than 16 entries of the call stack,
    the first being the caller of [outsideCaller]; it always returns, and its
    result is the PC of the first of them, in the walker's order, whose
    function name does not contain the package prefix, or 0 when the name of
    every one of them contains it. *)
Theorem outsideCaller_first_outside (stack : list N) :
  let captured := take 16 (drop 2 stack) in
  length captured ≤ 16 ∧
  is_Some (Source.outsideCaller stack) ∧
  (∀ pre pc post,
     captured = pre ++ pc :: post →
     Forall (λ p, outside p = false) pre → outside pc = true →
     Source.outsideCaller stack = Some (FPC (frame_of_pc pc))) ∧
  (Forall (λ p, outside p = false) captured →
   Source.outsideCaller stack = Some 0%N).
Proof.
  intros captured.
  assert (length captured ≤ 16) as Hlen.
  { subst captured. rewrite length_take. lia. }
  assert (Source.outsideCaller stack =
          Some (match List.find outside captured with
                | Some pc => FPC (frame_of_pc pc)
                | None => 0%N
                end)) as Hscan.
  { unfold Source.outsideCaller, Runtime.CallersFrames, Runtime.Callers, Source.depth.
    apply scan_first_outside. fold captured. lia. }
  split; [done|]. split; [rewrite Hscan; eauto|]. split.
  - intros pre pc post Hcap Hpre Hpc.
    by rewrite Hscan, Hcap, (find_first_outside pre post pc Hpre Hpc).
  - intros Hall. by rewrite Hscan, (find_none_outside captured Hall).
Qed.

End Resolver.

(** ** The process-wide extra fields *)

Section ExtraFields.
Context `{GoLib}.

Lemma foldl_insert_lookup (l : list (string * any)) :
  ∀ (g : gmap string any) (k : string),
  NoDup l.*1 →
  foldl (λ g kv, <[kv.1 := kv.2]> g) g l !! k
  = match (list_to_map l : gmap string any) !! k with
    | Some v => Some v
    | None => g !! k
    end.
Proof.
  induction l as [|[k0 v0] l IH]; intros g k Hnd; simpl.
  - by rewrite lookup_empty.
  - apply NoDup_cons in Hnd as [Hk0 Hnd]. rewrite IH by done.
    destruct (decide (k0 = k)) as [->|Hne].
    + rewrite !lookup_insert_eq.
      by rewrite (not_elem_of_list_to_map_1 (M := gmap string) l k Hk0).
    + by rewrite !lookup_insert_ne by done.
Qed.

(** In whatever order [range] visits the given fields, the store ends as the
    given fields laid over the previous store. *)
Lemma MergeGlobalExtraFields_in_union (fields : gmap string any)
    (order : list (string * any)) (s : World) :
  order ≡ₚ map_to_list fields →
  globalExtraFields (MergeGlobalExtraFields_in order s) = fields ∪ globalExtraFields s.
Proof.
  intros Hperm. unfold MergeGlobalExtraFields_in; simpl.
  assert (NoDup order.*1) as Hnd.
  { rewrite Hperm. apply NoDup_fst_map_to_list. }
  apply map_eq. intros k. rewrite foldl_insert_lookup by done.
  rewrite (list_to_map_proper (M := gmap string) _ _ Hnd Hperm), list_to_map_to_list.
  rewrite lookup_union. by destruct (fields !! k), (globalExtraFields s !! k).
Qed.

Lemma MergeGlobalExtraFields_union (fields : gmap string any) (s : World) :
  globalExtraFields (MergeGlobalExtraFields fields s) = fields ∪ globalExtraFields s.
Proof. by apply MergeGlobalExtraFields_in_union. Qed.

Lemma Handle_globalExtraFields (h : GCPHandler) (r : Record_) (s : World) :
  globalExtraFields (Handle h r s).2 = globalExtraFields s.
Proof. unfold Handle. by destruct (Marshal _). Qed.



Lemma member_extra (e : gcpLogEntry) :
  member "extra" (entry_json e) = Some (of_map (Extra e)).
Proof. unfold entry_json. by destruct (SourceLocation e). Qed.

Lemma member_context (e : gcpLogEntry) :
  member "context" (entry_json e) = Some (of_map (Context e)).
Proof. unfold entry_json. by destruct (SourceLocation e). Qed.



End ExtraFields.

(** ** Derived handlers *)

Section Store.


Lemma extends_refl (σ : arrays) : extends σ σ.
Proof. by intros l _. Qed.

Lemma extends_trans (σ1 σ2 σ3 : arrays) :
  extends σ1 σ2 → extends σ2 σ3 → extends σ1 σ3.
Proof.
  intros H12 H23 l Hl. rewrite <- (H12 l Hl). apply H23. by rewrite (H12 l Hl).
Qed.

Lemma extends_insert_fresh (σ : arrays) (l : loc) (xs : list Attr) :
  σ !! l = None → extends σ (<[l := xs]> σ).
Proof.
  intros Hl l' [ys Hl']. apply lookup_insert_ne. intros ->. congruence.
Qed.

Lemma extends_insert_new (σ σ' : arrays) (l : loc) (xs : list Attr) :
  σ !! l = None → extends σ σ' → extends σ (<[l := xs]> σ').
Proof.
  intros Hl Hext l' Hl'. rewrite lookup_insert_ne; [by apply Hext|].
  intros ->. destruct Hl' as [ys Hys]. congruence.
Qed.

Lemma array_of_insert (σ : arrays) (l : loc) (xs : list Attr) :
  array_of (<[l := xs]> σ) l = xs.
Proof. unfold array_of. by rewrite lookup_insert_eq. Qed.

Lemma slice_ok_missing (σ : arrays) (t : slice) :
  slice_ok σ t → σ !! s_arr t = None → s_off t = 0 ∧ s_len t = 0.
Proof.
  unfold slice_ok, array_of. intros Hok Hnone. rewrite Hnone in Hok.
  simpl in Hok. lia.
Qed.

Lemma elems_extends (σ σ' : arrays) (t : slice) :
  slice_ok σ t → extends σ σ' → elems σ' t = elems σ t.
Proof.
  intros Hok Hext. destruct (σ !! s_arr t) as [xs|] eqn:Harr.
  - unfold elems, array_of. by rewrite (Hext _ (mk_is_Some _ _ Harr)).
  - destruct (slice_ok_missing σ t Hok Harr) as [_ Hlen].
    unfold elems. by rewrite Hlen.
Qed.

Lemma slice_ok_extends (σ σ' : arrays) (t : slice) :
  slice_ok σ t → extends σ σ' → slice_ok σ' t.
Proof.
  intros Hok Hext. destruct (σ !! s_arr t) as [xs|] eqn:Harr.
  - unfold slice_ok, array_of in *. by rewrite (Hext _ (mk_is_Some _ _ Harr)).
  - destruct (slice_ok_missing σ t Hok Harr) as [Hoff Hlen].
    unfold slice_ok. rewrite Hoff, Hlen. simpl. lia.
Qed.

Lemma length_elems (σ : arrays) (t : slice) :
  slice_ok σ t → length (elems σ t) = s_len t.
Proof.
  intros Hok. unfold slice_ok in Hok. unfold elems.
  rewrite length_take, length_drop. lia.
Qed.

Lemma fresh_missing (σ : arrays) : σ !! fresh (dom σ) = None.
Proof. apply not_elem_of_dom, is_fresh. Qed.

(** [make] then the two [copy]s of [WithAttrs]: the new array holds the
    elements of the first slice followed by those of the second. *)
Lemma make_copy_copy (σ : arrays) (a b : slice) :
  slice_ok σ a → slice_ok σ b →
  let '(new, σ1) := make (s_len a + s_len b) σ in
  let σ3 := copy (slice_from new (s_len a)) b (copy new a σ1) in
  extends σ σ3 ∧ slice_ok σ3 new ∧ elems σ3 new = elems σ a ++ elems σ b.
Proof.
  intros Ha Hb. unfold make.
  set (l := fresh (dom σ)). set (n := s_len a + s_len b).
  set (σ1 := <[l := replicate n zeroAttr]> σ).
  assert (σ !! l = None) as Hl by apply fresh_missing.
  assert (extends σ σ1) as H1 by by apply extends_insert_fresh.
  set (σ2 := copy (mkSlice l 0 n n) a σ1).
  assert (array_of σ2 l = elems σ a ++ replicate (s_len b) zeroAttr) as Harr2.
  { unfold σ2, copy; simpl. rewrite array_of_insert.
    rewrite (elems_extends σ σ1 a Ha H1).
    rewrite Nat.min_r by (unfold n; lia).
    rewrite take_ge by (rewrite length_elems by done; lia).
    unfold σ1. rewrite array_of_insert. unfold n. rewrite replicate_add.
    apply list_inserts_0_r. by rewrite length_elems, length_replicate. }
  assert (extends σ σ2) as H2.
  { unfold σ2, copy; simpl. by apply extends_insert_new. }
  set (σ3 := copy (slice_from (mkSlice l 0 n n) (s_len a)) b σ2).
  assert (array_of σ3 l = elems σ a ++ elems σ b) as Harr3.
  { unfold σ3, copy; simpl. rewrite array_of_insert.
    rewrite (elems_extends σ σ2 b Hb H2), Harr2.
    replace (n - s_len a) with (s_len b) by (unfold n; lia).
    rewrite Nat.min_id.
    rewrite take_ge by (rewrite length_elems by done; lia).
    replace (s_len a) with (length (elems σ a) + 0) at 1
      by (rewrite length_elems by done; lia).
    rewrite list_inserts_app_r. f_equal.
    pose proof (list_inserts_0_r (elems σ b) (replicate (s_len b) zeroAttr) []) as Hi.
    rewrite !app_nil_r in Hi. apply Hi.
    by rewrite length_elems, length_replicate. }
  split; [|split].
  - unfold σ3, copy; simpl. by apply extends_insert_new.
  - unfold slice_ok; simpl. rewrite Harr3.
    rewrite length_app, !length_elems by done. unfold n. lia.
  - unfold elems at 1; simpl. rewrite Harr3. apply take_ge.
    rewrite length_app, !length_elems by done. unfold n. lia.
Qed.

End Store.

Section Derivation.
Context `{GoLib}.

Lemma WithAttrs_heap (h : GCPHandler) (a : slice) (s : World) :
  slice_ok (heap s) (attrs h) → slice_ok (heap s) a →
  extends (heap s) (heap (WithAttrs h a s).2) ∧
  slice_ok (heap (WithAttrs h a s).2) (attrs (WithAttrs h a s).1) ∧
  elems (heap (WithAttrs h a s).2) (attrs (WithAttrs h a s).1)
  = elems (heap s) (attrs h) ++ elems (heap s) a.
Proof.
  intros Hh Ha. pose proof (make_copy_copy (heap s) (attrs h) a Hh Ha) as Hmcc.
  unfold WithAttrs.
  destruct (make (s_len (attrs h) + s_len a) (heap s)) as [new σ1]. exact Hmcc.
Qed.

(** A handler fresh from [NewGCPHandler] holds no attributes. *)
Lemma NewGCPHandler_no_attrs (wr : Writer) (l : Level) (s : World) :
  extends (heap s) (heap (NewGCPHandler wr l s).2) ∧
  slice_ok (heap (NewGCPHandler wr l s).2) (attrs (NewGCPHandler wr l s).1) ∧
  elems (heap (NewGCPHandler wr l s).2) (attrs (NewGCPHandler wr l s).1) = [].
Proof.
  unfold NewGCPHandler, make; simpl. split; [|split].
  - apply extends_insert_fresh, fresh_missing.
  - unfold slice_ok; simpl. lia.
  - reflexivity.
Qed.

Lemma WithAttrs_rest (h : GCPHandler) (a : slice) (s : World) :
  w (WithAttrs h a s).1 = w h ∧ level (WithAttrs h a s).1 = level h ∧
  group (WithAttrs h a s).1 = group h ∧
  globalExtraFields (WithAttrs h a s).2 = globalExtraFields s ∧
  written (WithAttrs h a s).2 = written s.
Proof.
  unfold WithAttrs. by destruct (make (s_len (attrs h) + s_len a) (heap s)).
Qed.

Lemma addAttrToFields_insert (a : Attr) :
  ∃ x, ∀ m, addAttrToFields m a = <[Key a := x]> m.
Proof.
  destruct a as [k v]. unfold addAttrToFields.
  destruct v; simpl; try (eexists; intros m; reflexivity).
  destruct (obj_error o); eexists; intros m; reflexivity.
Qed.

(** The value an attribute leaves under its key is that of the last
    attribute of that key. *)
Lemma foldl_addAttrToFields_last (pre post : list Attr) (a : Attr)
    (m : gmap string any) :
  Forall (λ b, Key b ≠ Key a) post →
  foldl addAttrToFields m (pre ++ a :: post) !! Key a
  = addAttrToFields ∅ a !! Key a.
Proof.
  intros Hpost. rewrite foldl_app; simpl.
  destruct (addAttrToFields_insert a) as [x Hx]. rewrite !Hx, lookup_insert_eq.
  generalize (foldl addAttrToFields m pre). intros m'.
  revert m'. induction Hpost as [|b post Hb _ IH]; intros m'; simpl.
  - by rewrite lookup_insert_eq.
  - destruct (addAttrToFields_insert b) as [y Hy]. rewrite Hy.
    rewrite insert_insert_ne by done. apply IH.
Qed.

End Derivation.

Section DerivedContext.
Context `{GoLib}.

(** C1 (as amended). For a handler [h] and attribute slices [A] and [B],
    handling [R] with [h.WithAttrs(A).WithAttrs(B)] builds the context that
    results from adding to an empty map, in order, the attributes [h] already
    holds, then those of [A], then those of [B], then the attributes of [R],
    each through [addAttrToFields]; that map is the context member of the
    document, and a key's value in it is the one of the last attribute having
    that key. When [h] holds no attributes these are those of [A], [B] and [R]
    alone. The derivations leave the elements of [h]'s
    own slice as they were, and [h] handles any record afterwards exactly as
    it did before. *)
Theorem WithAttrs_twice_context (h : GCPHandler) (A B : slice) (R : Record_) (s : World) :
  slice_ok (heap s) (attrs h) → slice_ok (heap s) A → slice_ok (heap s) B →
  let d1 := WithAttrs h A s in
  let d2 := WithAttrs d1.1 B d1.2 in
  let all :=
    elems (heap s) (attrs h) ++ elems (heap s) A ++ elems (heap s) B ++ RAttrs R in
  Context (buildEntry d2.1 R d2.2) = foldl addAttrToFields ∅ all ∧
  member "context" (entry_json (buildEntry d2.1 R d2.2))
  = Some (of_map (foldl addAttrToFields ∅ all)) ∧
  (∀ pre a post, all = pre ++ a :: post → Forall (λ b, Key b ≠ Key a) post →
     Context (buildEntry d2.1 R d2.2) !! Key a = addAttrToFields ∅ a !! Key a) ∧
  (elems (heap s) (attrs h) = [] →
   Context (buildEntry d2.1 R d2.2)
   = foldl addAttrToFields ∅ (elems (heap s) A ++ elems (heap s) B ++ RAttrs R)) ∧
  elems (heap d2.2) (attrs h) = elems (heap s) (attrs h) ∧
  (∀ R', buildEntry h R' d2.2 = buildEntry h R' s ∧
         (Handle h R' d2.2).1 = (Handle h R' s).1 ∧
         written (Handle h R' d2.2).2 = written (Handle h R' s).2).
Proof.
  intros Hh HA HB d1 d2 all.
  destruct (WithAttrs_heap h A s Hh HA) as (Hext1 & Hok1 & Hel1). fold d1 in Hext1, Hok1, Hel1.
  pose proof (slice_ok_extends _ _ B HB Hext1) as HB1.
  destruct (WithAttrs_heap d1.1 B d1.2 Hok1 HB1) as (Hext2 & Hok2 & Hel2).
  fold d2 in Hext2, Hok2, Hel2.
  pose proof (extends_trans _ _ _ Hext1 Hext2) as Hext.
  destruct (WithAttrs_rest h A s) as (_ & _ & _ & Hg1 & Hw1). fold d1 in Hg1, Hw1.
  destruct (WithAttrs_rest d1.1 B d1.2) as (_ & _ & _ & Hg2 & Hw2). fold d2 in Hg2, Hw2.
  clearbody d2. clearbody d1.
  assert (Context (buildEntry d2.1 R d2.2) = foldl addAttrToFields ∅ all) as Hctx.
  { rewrite buildEntry_fields. cbn [Context].
    rewrite Hel2, Hel1, (elems_extends _ _ B HB Hext1). unfold all.
    by rewrite <- !app_assoc. }
  assert (∀ R', buildEntry h R' d2.2 = buildEntry h R' s) as Hsame.
  { intros R'. rewrite !buildEntry_fields.
    by rewrite (elems_extends _ _ (attrs h) Hh Hext), Hg2, Hg1. }
  split; [done|]. split; [by rewrite member_context, Hctx|]. split.
  { intros pre a post Hall Hpost. rewrite Hctx, Hall.
    by apply foldl_addAttrToFields_last. }
  split; [intros Hnone; rewrite Hctx; unfold all; by rewrite Hnone|].
  split; [by apply elems_extends|].
  intros R'. split; [done|]. unfold Handle. rewrite Hsame, Hw2, Hw1.
  destruct (Marshal (buildEntry h R' s)); simpl; [done|].
  by rewrite Hw2, Hw1.
Qed.

End DerivedContext.


(** C1, as the claim puts it: the context would hold the attributes of [A],
    [B] and the record only. It does not when the handler holds attributes of
    its own: [NewGCPHandler(w, info).WithAttrs(x = 1)] derived twice with
    empty [A] and [B] and handling a record without attributes builds a
    context that has x, where the claim's map is empty. *)
Lemma WithAttrs_context_of_A_B_only_fails :
  let h := Run.built.1 in
  let s := Run.built.2 in
  let d1 := WithAttrs h Run.nil_slice s in
  let d2 := WithAttrs d1.1 Run.nil_slice d1.2 in
  slice_ok (heap s) (attrs h) ∧ slice_ok (heap s) Run.nil_slice ∧
  Context (@buildEntry Sample.lib d2.1 Run.plain d2.2) !! "x" = Some (go_int64 1) ∧
  Context (@buildEntry Sample.lib d2.1 Run.plain d2.2)
  ≠ foldl addAttrToFields ∅
      (elems (heap s) Run.nil_slice ++ elems (heap s) Run.nil_slice ++ RAttrs Run.plain).
Proof.
  intros h s d1 d2.
  assert (Context (@buildEntry Sample.lib d2.1 Run.plain d2.2) !! "x"
          = Some (go_int64 1)) as Hx by (vm_compute; reflexivity).
  split; [vm_compute; lia|]. split; [vm_compute; lia|]. split; [exact Hx|].
  intros Heq. rewrite Heq in Hx. vm_compute in Hx. discriminate Hx.
Qed.

(** ** The theorems at concrete inputs *)

Lemma WithAttrs_twice_context_witness :
  Context (@buildEntry Sample.lib
     (WithAttrs (WithAttrs Run.h0 Run.sliceA Run.two_arrays).1 Run.sliceB
                (WithAttrs Run.h0 Run.sliceA Run.two_arrays).2).1
     Run.with_b
     (WithAttrs (WithAttrs Run.h0 Run.sliceA Run.two_arrays).1 Run.sliceB
                (WithAttrs Run.h0 Run.sliceA Run.two_arrays).2).2)
  = <["b" := go_string "late"]> (<["a" := go_int64 4]> (<["c" := go_int64 3]> ∅)).
Proof.
  destruct (WithAttrs_twice_context (H := Sample.lib) Run.h0 Run.sliceA Run.sliceB
              Run.with_b Run.two_arrays) as (Hctx & _).
  - vm_compute; lia.
  - vm_compute; lia.
  - vm_compute; lia.
  - rewrite Hctx. vm_compute. reflexivity.
Defined.


Lemma outsideCaller_first_outside_witness :
  @Source.outsideCaller Sample.lib Run.app_stack = Some 7%N.
Proof.
  destruct (outsideCaller_first_outside (H := Sample.lib) Run.app_stack)
    as (_ & _ & Hfirst & _).
  apply (Hfirst [1; 2]%N 7%N [9]%N).
  - reflexivity.
  - repeat constructor.
  - reflexivity.
Defined.


Lemma Handle_result_witness :
  (@Handle Sample.lib Run.hx Run.unencodable Run.one_attr)
  = (Some (mkError "json: unsupported type"), Run.one_attr) ∧
  is_Some (@Handle Sample.lib Run.h_closed Run.plain Run.one_attr).1 ∧
  length (written (@Handle Sample.lib Run.h_closed Run.plain Run.one_attr).2) = 1.
Proof.
  split; [|split].
  - apply (Handle_result (H := Sample.lib) Run.hx Run.unencodable Run.one_attr).
    reflexivity.
  - apply (Handle_result (H := Sample.lib) Run.h_closed Run.plain Run.one_attr).
    right. eexists. split; [reflexivity|]. vm_compute. eauto.
  - reflexivity.
Defined.


(** * Further properties of the handler *)

Section HandlerViews.
Context `{GoLib}.

(** [Handle] sees a handler through its writer and the elements of its
    attribute slice, and the world through the extra fields and what was
    written. *)
Lemma buildEntry_same_view (h h' : GCPHandler) (r : Record_) (s s' : World) :
  elems (heap s') (attrs h') = elems (heap s) (attrs h) →
  globalExtraFields s' = globalExtraFields s →
  buildEntry h' r s' = buildEntry h r s.
Proof. intros Hel Hg. by rewrite !buildEntry_fields, Hel, Hg. Qed.

Lemma Handle_same_view (h h' : GCPHandler) (r : Record_) (s s' : World) :
  elems (heap s') (attrs h') = elems (heap s) (attrs h) →
  globalExtraFields s' = globalExtraFields s →
  w h' = w h → written s' = written s →
  (Handle h' r s').1 = (Handle h r s).1 ∧
  written (Handle h' r s').2 = written (Handle h r s).2.
Proof.
  intros Hel Hg Hw Hwr. unfold Handle.
  rewrite (buildEntry_same_view h h' r s s' Hel Hg), Hw, Hwr.
  by destruct (Marshal (buildEntry h r s)).
Qed.

Lemma WithAttrs_array (h : GCPHandler) (a : slice) (s : World) :
  s_arr (attrs (WithAttrs h a s).1) = fresh (dom (heap s)) ∧
  is_Some (heap (WithAttrs h a s).2 !! fresh (dom (heap s))).
Proof.
  unfold WithAttrs, make, copy; simpl. split; [done|].
  rewrite lookup_insert_eq. eauto.
Qed.

Lemma addAttrToFields_stores (a : Attr) :
  ∃ x, (∀ d, x ≠ go_duration d) ∧ ∀ m, addAttrToFields m a = <[Key a := x]> m.
Proof.
  destruct a as [k v]. unfold addAttrToFields.
  destruct v; simpl; try (eexists; split; [|intros m; reflexivity]; discriminate).
  destruct (obj_error o); eexists; (split; [|intros m; reflexivity]); discriminate.
Qed.

Lemma foldl_addAttrToFields_other (l : list Attr) (k : string) :
  ∀ m : gmap string any,
  Forall (λ b, Key b ≠ k) l → foldl addAttrToFields m l !! k = m !! k.
Proof.
  induction l as [|b l IH]; intros m Hl; simpl; [done|].
  apply Forall_cons in Hl as [Hb Hl]. rewrite IH by done.
  destruct (addAttrToFields_stores b) as (x & _ & Hx).
  by rewrite Hx, lookup_insert_ne.
Qed.

Lemma dom_foldl_addAttrToFields (l : list Attr) :
  ∀ m : gmap string any,
  dom (foldl addAttrToFields m l) = list_to_set (Key <$> l) ∪ dom m.
Proof.
  induction l as [|b l IH]; intros m; simpl.
  - by rewrite (left_id_L ∅ (∪)).
  - rewrite IH. destruct (addAttrToFields_stores b) as (x & _ & Hx).
    rewrite Hx, dom_insert_L, (assoc_L (∪)).
    by rewrite (comm_L (∪) (list_to_set (Key <$> l)) {[Key b]}).
Qed.

Lemma foldl_addAttrToFields_no_duration (l : list Attr) :
  ∀ m : gmap string any,
  (∀ k d, m !! k ≠ Some (go_duration d)) →
  ∀ k d, foldl addAttrToFields m l !! k ≠ Some (go_duration d).
Proof.
  induction l as [|b l IH]; intros m Hm; simpl; [done|].
  apply IH. intros k d. destruct (addAttrToFields_stores b) as (x & Hx & Hins).
  rewrite Hins. destruct (decide (Key b = k)) as [<-|Hne].
  - rewrite lookup_insert_eq. intros [= ->]. by apply (Hx d).
  - rewrite lookup_insert_ne by done. apply Hm.
Qed.

(** X1. A handler from [NewGCPHandler] has the given writer and threshold
    and no group; it holds no attributes, so the context it builds for a
    record is made of the record's attributes alone; making it leaves every
    existing backing array, the extra fields and the written lines as they
    were. *)
Theorem NewGCPHandler_fresh (wr : Writer) (l : Level) (r : Record_) (s : World) :
  let hs := NewGCPHandler wr l s in
  w hs.1 = wr ∧ level hs.1 = l ∧ group hs.1 = EmptyString ∧
  Context (buildEntry hs.1 r hs.2) = foldl addAttrToFields ∅ (RAttrs r) ∧
  extends (heap s) (heap hs.2) ∧
  globalExtraFields hs.2 = globalExtraFields s ∧ written hs.2 = written s.
Proof.
  intros hs. subst hs.
  destruct (NewGCPHandler_no_attrs wr l s) as (Hext & _ & Hel).
  repeat split; try done.
  rewrite buildEntry_fields. cbn [Context]. by rewrite Hel.
Qed.

(** X2. Deriving with [A] and then with [B] gives a handler that handles
    every record as the handler derived once with the attributes of [A]
    followed by those of [B]: the same entry, the same result, the same
    lines written. *)
Theorem WithAttrs_compose (h : GCPHandler) (A B AB : slice) (r : Record_) (s : World) :
  slice_ok (heap s) (attrs h) → slice_ok (heap s) A → slice_ok (heap s) B →
  slice_ok (heap s) AB → elems (heap s) AB = elems (heap s) A ++ elems (heap s) B →
  let d1 := WithAttrs h A s in
  let d2 := WithAttrs d1.1 B d1.2 in
  let d := WithAttrs h AB s in
  buildEntry d2.1 r d2.2 = buildEntry d.1 r d.2 ∧
  (Handle d2.1 r d2.2).1 = (Handle d.1 r d.2).1 ∧
  written (Handle d2.1 r d2.2).2 = written (Handle d.1 r d.2).2.
Proof.
  intros Hh HA HB HAB Hcat d1 d2 d.
  destruct (WithAttrs_heap h A s Hh HA) as (Hext1 & Hok1 & Hel1). fold d1 in Hext1, Hok1, Hel1.
  pose proof (slice_ok_extends _ _ B HB Hext1) as HB1.
  destruct (WithAttrs_heap d1.1 B d1.2 Hok1 HB1) as (_ & _ & Hel2). fold d2 in Hel2.
  destruct (WithAttrs_heap h AB s Hh HAB) as (_ & _ & Hel). fold d in Hel.
  destruct (WithAttrs_rest h A s) as (Hw1 & _ & _ & Hg1 & Hwr1). fold d1 in Hw1, Hg1, Hwr1.
  destruct (WithAttrs_rest d1.1 B d1.2) as (Hw2 & _ & _ & Hg2 & Hwr2).
  fold d2 in Hw2, Hg2, Hwr2.
  destruct (WithAttrs_rest h AB s) as (Hw & _ & _ & Hg & Hwr). fold d in Hw, Hg, Hwr.
  clearbody d2 d1 d.
  assert (elems (heap d2.2) (attrs d2.1) = elems (heap d.2) (attrs d.1)) as Hsame.
  { by rewrite Hel2, Hel1, (elems_extends _ _ B HB Hext1), Hel, Hcat, app_assoc. }
  split; [apply buildEntry_same_view; congruence|].
  apply Handle_same_view; congruence.
Qed.

(** X3. [WithAttrs] copies: the derived handler's attributes sit in an array
    that did not exist before, so overwriting any earlier array, the
    caller's or the parent's, does not change them; and a second handler
    derived from the same parent gets another array, each sibling holding the
    parent's attributes followed by its own and none of the other's. *)
Theorem WithAttrs_isolated (h : GCPHandler) (A B : slice) (s : World) :
  slice_ok (heap s) (attrs h) → slice_ok (heap s) A → slice_ok (heap s) B →
  let d1 := WithAttrs h A s in
  let d2 := WithAttrs h B d1.2 in
  heap s !! s_arr (attrs d1.1) = None ∧
  (∀ l xs, is_Some (heap s !! l) →
     elems (<[l := xs]> (heap d1.2)) (attrs d1.1) = elems (heap d1.2) (attrs d1.1)) ∧
  s_arr (attrs d2.1) ≠ s_arr (attrs d1.1) ∧
  elems (heap d2.2) (attrs d1.1) = elems (heap s) (attrs h) ++ elems (heap s) A ∧
  elems (heap d2.2) (attrs d2.1) = elems (heap s) (attrs h) ++ elems (heap s) B.
Proof.
  intros Hh HA HB d1 d2.
  destruct (WithAttrs_heap h A s Hh HA) as (Hext1 & Hok1 & Hel1). fold d1 in Hext1, Hok1, Hel1.
  destruct (WithAttrs_array h A s) as (Harr1 & Hnew1). fold d1 in Harr1, Hnew1.
  pose proof (slice_ok_extends _ _ _ Hh Hext1) as Hh1.
  pose proof (slice_ok_extends _ _ _ HB Hext1) as HB1.
  destruct (WithAttrs_heap h B d1.2 Hh1 HB1) as (Hext2 & _ & Hel2). fold d2 in Hext2, Hel2.
  destruct (WithAttrs_array h B d1.2) as (Harr2 & _). fold d2 in Harr2.
  clearbody d2 d1.
  assert (heap s !! s_arr (attrs d1.1) = None) as Hfresh.
  { rewrite Harr1. apply fresh_missing. }
  split; [done|]. split.
  { intros l xs Hl. unfold elems, array_of. rewrite lookup_insert_ne; [done|].
    intros ->. rewrite Hfresh in Hl. by destruct Hl. }
  split.
  { rewrite Harr2, Harr1. intros Heq.
    pose proof (fresh_missing (heap d1.2)) as Hnone. rewrite Heq in Hnone.
    rewrite Hnone in Hnew1. by destruct Hnew1. }
  split.
  - by rewrite (elems_extends _ _ _ Hok1 Hext2).
  - by rewrite Hel2, (elems_extends _ _ _ Hh Hext1), (elems_extends _ _ _ HB Hext1).
Qed.

(** X4. Deriving with an empty attribute list gives a handler that handles
    every record exactly as the parent does. *)
Theorem WithAttrs_empty (h : GCPHandler) (A : slice) (r : Record_) (s : World) :
  slice_ok (heap s) (attrs h) → slice_ok (heap s) A → s_len A = 0 →
  let d := WithAttrs h A s in
  buildEntry d.1 r d.2 = buildEntry h r s ∧
  (Handle d.1 r d.2).1 = (Handle h r s).1 ∧
  written (Handle d.1 r d.2).2 = written (Handle h r s).2.
Proof.
  intros Hh HA Hlen d.
  destruct (WithAttrs_heap h A s Hh HA) as (_ & _ & Hel). fold d in Hel.
  destruct (WithAttrs_rest h A s) as (Hw & _ & _ & Hg & Hwr). fold d in Hw, Hg, Hwr.
  clearbody d.
  assert (elems (heap s) A = []) as HnilA by (unfold elems; by rewrite Hlen).
  rewrite HnilA, app_nil_r in Hel.
  split; [by apply buildEntry_same_view|]. by apply Handle_same_view.
Qed.

(** The two derivations commute: attributes then group gives the same
    handler and world as group then attributes. A second [WithGroup] replaces
    the first group. Neither derivation changes what [Enabled] answers. *)
Lemma derivations_commute (h : GCPHandler) (a : slice) (g g' : string)
    (l : Level) (s : World) :
  WithAttrs (WithGroup h g) a s
  = (WithGroup (WithAttrs h a s).1 g, (WithAttrs h a s).2) ∧
  WithGroup (WithGroup h g) g' = WithGroup h g' ∧
  Enabled (WithAttrs h a s).1 l = Enabled h l ∧
  Enabled (WithGroup h g) l = Enabled h l.
Proof. repeat split. Qed.

(** X5. In the context an attribute of the record wins over a preset of the
    handler with the same key: the value under a key carried by the record is
    that of the record's last attribute of that key; a key the record does not
    carry has the value the presets alone give it; and the keys of the context
    are those of the presets and of the record, no more. *)
Theorem record_attrs_over_presets (h : GCPHandler) (r : Record_) (s : World) :
  (∀ pre a post, RAttrs r = pre ++ a :: post → Forall (λ b, Key b ≠ Key a) post →
     Context (buildEntry h r s) !! Key a = addAttrToFields ∅ a !! Key a) ∧
  (∀ k, Forall (λ b, Key b ≠ k) (RAttrs r) →
     Context (buildEntry h r s) !! k
     = foldl addAttrToFields ∅ (elems (heap s) (attrs h)) !! k) ∧
  dom (Context (buildEntry h r s))
  = list_to_set (Key <$> (elems (heap s) (attrs h) ++ RAttrs r)).
Proof.
  rewrite buildEntry_fields. cbn [Context]. split; [|split].
  - intros pre a post Hr Hpost. rewrite Hr, app_assoc.
    by apply foldl_addAttrToFields_last.
  - intros k Hk. rewrite foldl_app. by apply foldl_addAttrToFields_other.
  - by rewrite dom_foldl_addAttrToFields, dom_empty_L, (right_id_L ∅ (∪)).
Qed.

(** X6. [addAttrToFields] always leaves a value under the attribute's key,
    changes no other key, and adding the same attribute twice is adding it
    once. The value is never a duration, so no member of the context a
    handler builds is one. *)
Theorem addAttrToFields_lookup (m : gmap string any) (a : Attr)
    (h : GCPHandler) (r : Record_) (s : World) :
  is_Some (addAttrToFields m a !! Key a) ∧
  (∀ k, k ≠ Key a → addAttrToFields m a !! k = m !! k) ∧
  addAttrToFields (addAttrToFields m a) a = addAttrToFields m a ∧
  (∀ k d, Context (buildEntry h r s) !! k ≠ Some (go_duration d)).
Proof.
  destruct (addAttrToFields_stores a) as (x & Hx & Hins). rewrite !Hins.
  split; [rewrite lookup_insert_eq; eauto|].
  split; [intros k Hk; by rewrite lookup_insert_ne|].
  split; [by rewrite insert_insert_eq|].
  rewrite buildEntry_fields. cbn [Context].
  apply foldl_addAttrToFields_no_duration. intros k d. by rewrite lookup_empty.
Qed.

End HandlerViews.

(** ** The document and its encoding *)

Section Document.
Context `{GoLib}.

Lemma of_map_JObject (m : gmap string any) :
  ∃ ms, of_map m = JObject ms ∧ ∀ k x, (k, JAny x) ∈ ms ↔ m !! k = Some x.
Proof.
  eexists; split; [reflexivity|]. intros k x.
  rewrite list_elem_of_fmap. setoid_rewrite merge_sort_Permutation.
  split.
  - intros [[k' x'] [[= -> ->] Hin]]. by apply elem_of_map_to_list.
  - intros Hm. exists (k, x). split; [done|]. by apply elem_of_map_to_list.
Qed.

(** X7. The document [Handle] marshals has no two members of one name and
    none beyond severity, message, timestamp, the source location, context
    and extra. Severity, message and timestamp come from the record's level,
    message and time alone, whatever the attributes are called; context and
    extra are always objects, holding exactly the context map and the
    process-wide extra fields. *)
Theorem document_shape (h : GCPHandler) (r : Record_) (s : World) :
  let doc := entry_json (buildEntry h r s) in
  NoDup (keys doc) ∧
  (∀ k, k ∈ keys doc →
     k ∈ ["severity"; "message"; "timestamp"; sourceLocationKey; "context"; "extra"]) ∧
  member "severity" doc = Some (JString (levelToGCPSeverity (RLevel r))) ∧
  member "message" doc = Some (JString (RMessage r)) ∧
  member "timestamp" doc = Some (JString (format_RFC3339Nano (RTime r))) ∧
  (∃ ms, member "context" doc = Some (JObject ms) ∧
         ∀ k x, (k, JAny x) ∈ ms ↔ Context (buildEntry h r s) !! k = Some x) ∧
  (∃ ms, member "extra" doc = Some (JObject ms) ∧
         ∀ k x, (k, JAny x) ∈ ms ↔ globalExtraFields s !! k = Some x).
Proof.
  intros doc. subst doc.
  split.
  { rewrite keys_entry_json.
    destruct (SourceLocation (buildEntry h r s)); simpl;
      apply (bool_decide_unpack _); by vm_compute. }
  split.
  { intros k. rewrite keys_entry_json.
    destruct (SourceLocation (buildEntry h r s)); simpl;
      rewrite !elem_of_cons, !elem_of_nil; tauto. }
  split; [rewrite buildEntry_fields; unfold entry_json; by destruct (gate r)|].
  split; [rewrite buildEntry_fields; unfold entry_json; by destruct (gate r)|].
  split; [rewrite buildEntry_fields; unfold entry_json; by destruct (gate r)|].
  split.
  - rewrite member_context.
    destruct (of_map_JObject (Context (buildEntry h r s))) as (ms & -> & Hms). eauto.
  - rewrite member_extra.
    destruct (of_map_JObject (Extra (buildEntry h r s))) as (ms & -> & Hms).
    exists ms. split; [done|]. intros k x. rewrite Hms.
    by rewrite buildEntry_fields.
Qed.

Lemma encode_JObject (ms : list (string * json)) :
  encode (JObject ms)
  = match encode_list ms with
    | Err e => Err e
    | Ok parts => Ok (lbrace +:+ join comma parts +:+ rbrace)
    end.
Proof.
  simpl. match goal with |- match ?f ms with _ => _ end = _ =>
    assert (∀ l, f l = encode_list l) as Heq end.
  { induction l as [|[k v] l IH]; simpl; [done|]. by rewrite IH. }
  by rewrite Heq.
Qed.

Lemma encode_list_err (ms : list (string * json)) :
  is_Err (encode_list ms) ↔ ∃ kv, kv ∈ ms ∧ is_Err (encode kv.2).
Proof.
  unfold is_Err. induction ms as [|[k v] ms IH]; simpl.
  - split; [intros [e [=]]|]. intros (kv & Hin & _). by apply elem_of_nil in Hin.
  - destruct (encode v) as [t|e] eqn:Hv.
    + destruct (encode_list ms) as [ts|e'] eqn:Hms.
      * split; [intros [e [=]]|]. intros (kv & Hin & Herr).
        apply elem_of_cons in Hin as [->|Hin].
        { simpl in Herr. rewrite Hv in Herr. by destruct Herr as [e [=]]. }
        destruct (proj2 IH (ex_intro _ kv (conj Hin Herr))) as [e [=]].
      * split; [|eauto]. intros _.
        destruct (proj1 IH (ex_intro _ e' eq_refl)) as (kv & Hin & Herr).
        exists kv. split; [by apply list_elem_of_further|done].
    + split; [|eauto]. intros _. exists (k, v). split; [apply list_elem_of_here|].
      simpl. rewrite Hv. eauto.
Qed.

Lemma encode_JObject_err (ms : list (string * json)) :
  is_Err (encode (JObject ms)) ↔ ∃ kv, kv ∈ ms ∧ is_Err (encode kv.2).
Proof.
  rewrite encode_JObject, <- encode_list_err. unfold is_Err.
  destruct (encode_list ms); split; eauto; intros [? [=]].
Qed.

Lemma encode_of_map_err (m : gmap string any) :
  is_Err (encode (of_map m)) ↔ ∃ k x, m !! k = Some x ∧ is_Err (json_any x).
Proof.
  destruct (of_map_JObject m) as (ms & Hms & Hin).
  assert (∀ kv, kv ∈ ms → ∃ x, kv.2 = JAny x) as Hshape.
  { unfold of_map in Hms. injection Hms as <-. intros kv Hkv.
    apply list_elem_of_fmap in Hkv as ([k x] & -> & _). by exists x. }
  rewrite Hms, encode_JObject_err. split.
  - intros ([k j] & Hkv & Herr). destruct (Hshape _ Hkv) as [x Hx].
    simpl in Hx. subst j. exists k, x. split; [by apply Hin|done].
  - intros (k & x & Hm & Herr). exists (k, JAny x). split; [by apply Hin|done].
Qed.

Lemma Marshal_err (e : gcpLogEntry) :
  is_Err (Marshal e) ↔
  ∃ k x, (Context e !! k = Some x ∨ Extra e !! k = Some x) ∧ is_Err (json_any x).
Proof.
  unfold Marshal, entry_json. rewrite encode_JObject_err. split.
  - intros (kv & Hin & Herr).
    rewrite !elem_of_app, !elem_of_cons, elem_of_nil in Hin.
    destruct Hin as [[->|[->|[->|[]]]]|[Hin|[->|[->|[]]]]].
    + by destruct Herr as [? [=]].
    + by destruct Herr as [? [=]].
    + by destruct Herr as [? [=]].
    + destruct (SourceLocation e) as [sl|]; [|by apply elem_of_nil in Hin].
      apply list_elem_of_singleton in Hin. subst kv.
      simpl in Herr. by destruct Herr as [? [=]].
    + simpl in Herr. apply encode_of_map_err in Herr as (k & x & Hk & Hx). eauto 6.
    + simpl in Herr. apply encode_of_map_err in Herr as (k & x & Hk & Hx). eauto 6.
  - intros (k & x & [Hk|Hk] & Hx).
    + exists ("context", of_map (Context e)). split.
      * rewrite !elem_of_app, !elem_of_cons. tauto.
      * apply encode_of_map_err. eauto.
    + exists ("extra", of_map (Extra e)). split.
      * rewrite !elem_of_app, !elem_of_cons. tauto.
      * apply encode_of_map_err. eauto.
Qed.

Lemma Handle_written (h : GCPHandler) (r : Record_) (s : World) :
  written (Handle h r s).2 = written s ++ option_list (line_of h r s).
Proof.
  unfold Handle, line_of. destruct (Marshal (buildEntry h r s)); simpl; [done|].
  by rewrite app_nil_r.
Qed.

Lemma Handle_heap (h : GCPHandler) (r : Record_) (s : World) :
  heap (Handle h r s).2 = heap s.
Proof. unfold Handle. by destruct (Marshal _). Qed.

Lemma line_of_same (h : GCPHandler) (r : Record_) (s s' : World) :
  heap s' = heap s → globalExtraFields s' = globalExtraFields s →
  line_of h r s' = line_of h r s.
Proof.
  intros Hh Hg. unfold line_of.
  by rewrite (buildEntry_same_view h h r s s') by (by rewrite ?Hh).
Qed.

Lemma Handle_writes_nothing_silent (h : GCPHandler) (r : Record_) (s : World) :
  (∃ k x, (Context (buildEntry h r s) !! k = Some x ∨ globalExtraFields s !! k = Some x)
          ∧ is_Err (json_any x)) →
  written (Handle h r s).2 = written s.
Proof.
  intros Hbad. assert (is_Err (Marshal (buildEntry h r s))) as [e He].
  { apply Marshal_err. destruct Hbad as (k & x & Hk & Hx). exists k, x.
    split; [|done]. by rewrite buildEntry_fields in Hk |- *. }
  unfold Handle. by rewrite He.
Qed.

Lemma Handle_silent_error (h : GCPHandler) (r : Record_) (s : World) :
  written (Handle h r s).2 = written s → is_Some (Handle h r s).1.
Proof.
  unfold Handle. destruct (Marshal (buildEntry h r s)); simpl; [|eauto].
  intros Heq. apply (f_equal length) in Heq. rewrite length_app in Heq.
  simpl in Heq. lia.
Qed.

(** X8. [Handle] writes nothing exactly when the encoder rejects some value
    of the context or of the process-wide extra fields, and then it returns
    an error; severity, message, timestamp and source location never make it
    fail. *)
Theorem Handle_writes_nothing_iff (h : GCPHandler) (r : Record_) (s : World) :
  (written (Handle h r s).2 = written s ↔
   ∃ k x, (Context (buildEntry h r s) !! k = Some x ∨ globalExtraFields s !! k = Some x)
          ∧ is_Err (json_any x)) ∧
  (written (Handle h r s).2 = written s → is_Some (Handle h r s).1).
Proof.
  assert (written (Handle h r s).2 = written s ↔ is_Err (Marshal (buildEntry h r s)))
    as Hnone.
  { unfold Handle, is_Err. destruct (Marshal (buildEntry h r s)) as [b|e]; simpl.
    - split; [|intros [? [=]]].
      intros Heq. apply (f_equal length) in Heq.
      rewrite length_app in Heq. simpl in Heq. lia.
    - split; eauto. }
  assert (Extra (buildEntry h r s) = globalExtraFields s) as Hx
    by by rewrite buildEntry_fields.
  split.
  - by rewrite Hnone, Marshal_err, Hx.
  - rewrite Hnone. unfold Handle, is_Err.
    destruct (Marshal (buildEntry h r s)); simpl; [intros [? [=]]|eauto].
Qed.

End Document.

(** ** Runs of [Handle] and the extra fields *)

Section Runs.
Context `{GoLib}.

Lemma Handle_all_cons (c : GCPHandler * Record_) (calls : list (GCPHandler * Record_))
    (s : World) :
  Handle_all (c :: calls) s = Handle_all calls (Handle c.1 c.2 s).2.
Proof. reflexivity. Qed.

Lemma Handle_all_written (calls : list (GCPHandler * Record_)) (s0 : World) :
  ∀ s, heap s = heap s0 → globalExtraFields s = globalExtraFields s0 →
  written (Handle_all calls s) = written s ++ omap (λ c, line_of c.1 c.2 s0) calls ∧
  heap (Handle_all calls s) = heap s0 ∧
  globalExtraFields (Handle_all calls s) = globalExtraFields s0.
Proof.
  induction calls as [|c calls IH]; intros s Hh Hg.
  - simpl. by rewrite app_nil_r.
  - rewrite Handle_all_cons.
    destruct (IH (Handle c.1 c.2 s).2) as (Hw & Hh' & Hg').
    { by rewrite Handle_heap. }
    { by rewrite Handle_globalExtraFields. }
    split; [|done]. rewrite Hw, Handle_written, (line_of_same c.1 c.2 s0 s Hh Hg).
    rewrite <- app_assoc. f_equal. simpl. by destruct (line_of c.1 c.2 s0).
Qed.

(** X9. After a run of [Handle] calls the written lines are the earlier
    ones, untouched, followed in call order by one line for each record whose
    entry marshals, whether or not its write succeeded; every such line ends
    in a newline; the backing arrays and the extra fields are as before. *)
Theorem Handle_all_lines (calls : list (GCPHandler * Record_)) (s : World) :
  written (Handle_all calls s) = written s ++ omap (λ c, line_of c.1 c.2 s) calls ∧
  Forall (λ wl : Writer * string, ∃ t, wl.2 = t +:+ newline)
         (omap (λ c, line_of c.1 c.2 s) calls) ∧
  length (omap (λ c, line_of c.1 c.2 s) calls) ≤ length calls ∧
  heap (Handle_all calls s) = heap s ∧
  globalExtraFields (Handle_all calls s) = globalExtraFields s.
Proof.
  destruct (Handle_all_written calls s s eq_refl eq_refl) as (Hw & Hh & Hg).
  split; [done|]. split; [|split; [|done]].
  - clear. induction calls as [|c calls IH]; simpl; [constructor|].
    unfold line_of at 1. destruct (Marshal (buildEntry c.1 c.2 s)); simpl; [|done].
    constructor; [|done]. simpl. eauto.
  - clear. induction calls as [|c calls IH]; [simpl; lia|].
    cbn [omap list_omap]. destruct (line_of c.1 c.2 s); simpl length; lia.
Qed.

Lemma omap_line_of_silent (calls : list (GCPHandler * Record_)) (s : World) :
  (∀ c : GCPHandler * Record_, written (Handle c.1 c.2 s).2 = written s) →
  omap (λ c, line_of c.1 c.2 s) calls = [].
Proof.
  intros Hquiet. induction calls as [|c calls IH]; [done|].
  cbn [omap list_omap]. fold (omap (λ c, line_of c.1 c.2 s) calls). rewrite IH.
  pose proof (Hquiet c) as Hq. rewrite Handle_written in Hq.
  destruct (line_of c.1 c.2 s); [|done].
  apply (f_equal length) in Hq. rewrite length_app in Hq. simpl in Hq. lia.
Qed.

Lemma MergeGlobalExtraFields_world (fields : gmap string any) (s : World) :
  MergeGlobalExtraFields fields s
  = mkWorld (heap s) (fields ∪ globalExtraFields s) (written s).
Proof.
  pose proof (MergeGlobalExtraFields_union fields s) as Hu.
  unfold MergeGlobalExtraFields, MergeGlobalExtraFields_in in *. simpl in Hu.
  by rewrite Hu.
Qed.

(** X10. Merging a field whose value the encoder rejects silences the
    package: from then on every [Handle], of any handler and record, returns
    an error and writes nothing, however many calls are made. *)
Theorem unencodable_extra_silences (fields : gmap string any) (k : string) (bad : any)
    (calls : list (GCPHandler * Record_)) (h : GCPHandler) (r : Record_) (s : World) :
  fields !! k = Some bad → is_Err (json_any bad) →
  let s1 := MergeGlobalExtraFields fields s in
  written (Handle_all calls s1) = written s ∧
  is_Some (Handle h r (Handle_all calls s1)).1 ∧
  written (Handle h r (Handle_all calls s1)).2 = written s.
Proof.
  intros Hk Hbad s1.
  assert (∀ s' h' r', globalExtraFields s' = globalExtraFields s1 →
            written (Handle h' r' s').2 = written s') as Hquiet.
  { intros s' h' r' Hg. apply Handle_writes_nothing_silent. exists k, bad.
    split; [|done]. right. rewrite Hg. unfold s1.
    rewrite MergeGlobalExtraFields_world. simpl.
    by rewrite lookup_union, Hk; destruct (globalExtraFields s !! k). }
  assert (∀ cs, written (Handle_all cs s1) = written s1) as Hrun.
  { intros cs. destruct (Handle_all_written cs s1 s1 eq_refl eq_refl) as (Hw & _ & _).
    rewrite Hw, omap_line_of_silent; [by rewrite app_nil_r|].
    intros c. by apply Hquiet. }
  assert (written s1 = written s) as Hs1
    by (unfold s1; by rewrite MergeGlobalExtraFields_world).
  destruct (Handle_all_written calls s1 s1 eq_refl eq_refl) as (_ & _ & Hg).
  pose proof (Hquiet _ h r Hg) as Hq.
  split; [by rewrite Hrun|]. split; [|by rewrite Hq, Hrun].
  by apply Handle_silent_error.
Qed.

(** X11. Merging nothing changes nothing; merging the same fields twice is
    merging them once; two merges in a row are one merge of the later fields
    laid over the earlier. A merge never removes a key and leaves the value
    of every key it does not carry; it touches neither the backing arrays
    nor the written lines. *)
Theorem MergeGlobalExtraFields_algebra (f1 f2 : gmap string any) (s : World) :
  MergeGlobalExtraFields ∅ s = s ∧
  MergeGlobalExtraFields f1 (MergeGlobalExtraFields f1 s) = MergeGlobalExtraFields f1 s ∧
  MergeGlobalExtraFields f2 (MergeGlobalExtraFields f1 s)
  = MergeGlobalExtraFields (f2 ∪ f1) s ∧
  dom (globalExtraFields (MergeGlobalExtraFields f1 s))
  = dom f1 ∪ dom (globalExtraFields s) ∧
  (∀ k, f1 !! k = None →
     globalExtraFields (MergeGlobalExtraFields f1 s) !! k = globalExtraFields s !! k) ∧
  heap (MergeGlobalExtraFields f1 s) = heap s ∧
  written (MergeGlobalExtraFields f1 s) = written s.
Proof.
  rewrite !MergeGlobalExtraFields_world; simpl.
  split; [rewrite (left_id_L ∅ (∪)); by destruct s|].
  split; [by rewrite (assoc_L (∪)), (idemp_L (∪))|].
  split; [by rewrite (assoc_L (∪))|].
  split; [by rewrite dom_union_L|].
  split; [|done]. intros k Hk. by rewrite lookup_union, Hk, (left_id_L None _).
Qed.

End Runs.

(** ** The resolver's reach *)

Section Reach.
Context `{GoLib}.

Lemma outsideCaller_find (stack : list N) :
  Source.outsideCaller stack =
  Some (match List.find outside (take 16 (drop 2 stack)) with
        | Some pc => FPC (frame_of_pc pc)
        | None => 0%N
        end).
Proof.
  unfold Source.outsideCaller, Runtime.CallersFrames, Runtime.Callers, Source.depth.
  apply scan_first_outside. rewrite length_take. lia.
Qed.



Lemma prefix_iff (p s : string) :
  String.prefix p s = true ↔ ∃ post, s = p +:+ post.
Proof.
  revert s. induction p as [|a p IH]; intros s.
  - destruct s; simpl; split; eauto.
  - destruct s as [|b s]; simpl; [split; [done|intros [post [=]]]|].
    destruct (Ascii.ascii_dec a b) as [->|Hne].
    + rewrite IH. split; intros [post Hp]; exists post; [by rewrite Hp|by injection Hp].
    + split; [done|]. intros [post [= -> _]]. by destruct Hne.
Qed.

(** X13. A frame counts as the package's exactly when the package path
    occurs somewhere in its function name, at the start or further in: the
    test is for a substring, not for a prefix. *)
Theorem Contains_substring (s sub : string) (pc : N) :
  (Contains s sub = true ↔ ∃ pre post, s = pre +:+ sub +:+ post) ∧
  (outside pc = false ↔
   ∃ pre post, Function (frame_of_pc pc) = pre +:+ Source.pkgPrefix +:+ post).
Proof.
  assert (∀ s sub, Contains s sub = true ↔ ∃ pre post, s = pre +:+ sub +:+ post) as Hc.
  { clear. intros s sub. induction s as [|a s IH]; cbn [Contains].
    - rewrite orb_false_r, prefix_iff. split.
      + intros [post Hp]. by exists EmptyString, post.
      + intros (pre & post & Hp). destruct pre; [by exists post|discriminate].
    - rewrite orb_true_iff, prefix_iff, IH. split.
      + intros [[post Hp]|(pre & post & Hp)].
        * by exists EmptyString, post.
        * exists (String a pre), post. simpl. by rewrite Hp.
      + intros (pre & post & Hp). destruct pre as [|b pre].
        * left. by exists post.
        * right. simpl in Hp. injection Hp as -> Hp. eauto. }
  split; [apply Hc|]. unfold outside. by rewrite negb_false_iff, Hc.
Qed.

End Reach.

(** ** Severity against the threshold *)

Lemma severity_rank_monotone (l l' : Level) :
  (l ≤ l')%Z →
  severity_rank (levelToGCPSeverity l) ≤ severity_rank (levelToGCPSeverity l').
Proof.
  intros Hl. unfold levelToGCPSeverity. rewrite !Z.geb_leb.
  repeat match goal with
         | |- context [(?a <=? ?b)%Z] => destruct (Z.leb_spec a b)
         end; try (vm_compute; lia); unfold LevelError, LevelWarn, LevelInfo in *; lia.
Qed.

(** X14. Severity rises with the level, and a handler enables only records
    whose severity is at least that of its threshold: a handler at warn never
    lets DEBUG or INFO through [Enabled]. *)
Theorem Enabled_severity_floor (h : GCPHandler) (l : Level) :
  Enabled h l = true →
  severity_rank (levelToGCPSeverity (level h)) ≤ severity_rank (levelToGCPSeverity l) ∧
  ∀ l', (l ≤ l')%Z →
    Enabled h l' = true ∧
    severity_rank (levelToGCPSeverity l) ≤ severity_rank (levelToGCPSeverity l').
Proof.
  unfold Enabled. rewrite Z.geb_le. intros Hl.
  split; [by apply severity_rank_monotone|].
  intros l' Hl'. split; [apply Z.geb_le; lia|by apply severity_rank_monotone].
Qed.

(** ** The package logger and the facade *)

Section FacadeProps.
Context `{GoLib}.

(** X15. [NewLogger] installs a logger over a handler on standard output
    without attributes or group, and returns it. Its threshold is info, warn
    or error for exactly these three names; any other name, a differently
    cased one included, gives debug, and that logger enables every level
    from debug up. The extra fields and the written lines stay as they
    were. *)
Theorem NewLogger_threshold (lvl : string) (p : Package) :
  let hp := NewLogger lvl p in
  logger hp.2 = Some hp.1 ∧ w hp.1 = os_Stdout ∧ group hp.1 = EmptyString ∧
  elems (heap (world hp.2)) (attrs hp.1) = [] ∧
  (lvl = "info" → level hp.1 = LevelInfo) ∧
  (lvl = "warn" → level hp.1 = LevelWarn) ∧
  (lvl = "error" → level hp.1 = LevelError) ∧
  (lvl ≠ "info" → lvl ≠ "warn" → lvl ≠ "error" →
   level hp.1 = LevelDebug ∧ ∀ l, (LevelDebug ≤ l)%Z → Enabled hp.1 l = true) ∧
  globalExtraFields (world hp.2) = globalExtraFields (world p) ∧
  written (world hp.2) = written (world p).
Proof.
  intros hp. subst hp. unfold NewLogger, NewGCPHandler, make. simpl.
  split; [done|]. split; [done|]. split; [done|]. split; [done|].
  split; [by intros ->|]. split; [by intros ->|]. split; [by intros ->|].
  split; [|done]. intros Hi Hw He.
  assert ((if String.eqb lvl "debug" then LevelDebug
           else if String.eqb lvl "info" then LevelInfo
           else if String.eqb lvl "warn" then LevelWarn
           else if String.eqb lvl "error" then LevelError else LevelDebug)
          = LevelDebug) as Hlevel.
  { destruct (String.eqb_spec lvl "debug"); [done|].
    destruct (String.eqb_spec lvl "info"); [done|].
    destruct (String.eqb_spec lvl "warn"); [done|].
    by destruct (String.eqb_spec lvl "error"). }
  split; [done|]. intros l Hl. unfold Enabled. simpl. rewrite Hlevel.
  by apply Z.geb_le.
Qed.



(** X17. When the level is enabled and the first captured stack entry
    outside the package is [pc], [logAttrs] hands [Handle] a record whose PC
    is that frame's PC and whose attributes are the given ones without the
    empty groups. For debug and error, and a PC that is not 0, the entry's
    source location is file, line and function of the frame that PC
    symbolises to; for every other level the entry has no source location,
    resolved call site or not. *)
Theorem logAttrs_call_site (stack : list N) (now : Z) (ctx : Ctx) (lvl : Level)
    (msg : string) (attrs' : list Attr) (p : Package) (h : GCPHandler)
    (pre post : list N) (pc : N) :
  logger p = Some h → Enabled h lvl = true →
  take 16 (drop 2 stack) = pre ++ pc :: post →
  Forall (λ q, outside q = false) pre → outside pc = true →
  let r := mkRecord now msg lvl (FPC (frame_of_pc pc))
             (List.filter (λ a, negb (isEmptyGroup (Val a))) attrs') in
  logAttrs stack now ctx lvl msg attrs' p
  = Some (mkPackage (Handle h r (world p)).2 (Some h)) ∧
  ((lvl = LevelDebug ∨ lvl = LevelError) → FPC (frame_of_pc pc) ≠ 0%N →
   SourceLocation (buildEntry h r (world p))
   = Some (mkSourceLocation (File (frame_of_pc (FPC (frame_of_pc pc))))
                            (Line (frame_of_pc (FPC (frame_of_pc pc))))
                            (Function (frame_of_pc (FPC (frame_of_pc pc)))))) ∧
  (lvl ≠ LevelDebug → lvl ≠ LevelError → SourceLocation (buildEntry h r (world p)) = None).
Proof.
  intros Hlog Hen Hcap Hpre Hpc r.
  assert (Source.outsideCaller stack = Some (FPC (frame_of_pc pc))) as Hoc.
  { by rewrite outsideCaller_find, Hcap, (find_first_outside pre post pc Hpre Hpc). }
  split; [|split].
  - unfold logAttrs. rewrite Hlog, Hen, Hoc. simpl.
    unfold Record_AddAttrs, NewRecord. simpl. fold r.
    by destruct (Handle h r (world p)).
  - intros Hl Hnz. rewrite buildEntry_fields. cbn [SourceLocation].
    assert (gate r = true) as -> by (apply gate_true; by subst r).
    done.
  - intros Hd He. rewrite buildEntry_fields. cbn [SourceLocation].
    assert (gate r = false) as ->; [|done].
    apply not_true_is_false. rewrite gate_true. subst r. simpl. tauto.
Qed.

(** X18. A logger put into a context with [WithLogger] is the one
    [FromContext] gets back, a nil logger included, whatever values of other
    keys are added on top; the innermost [WithLogger] wins. From a context
    that never received one, [FromContext] gives [slog.Default()], not the
    package logger. [logAttrs] works with the package logger whatever logger
    its context carries. *)
Theorem FromContext_WithLogger (ctx : Ctx) (l l' : option Logger)
    (others : list (string * ctxVal)) (stack : list N) (now : Z) (lvl : Level)
    (msg : string) (attrs' : list Attr) (p : Package) :
  let add := foldl (λ c kv, WithValue c (otherKey kv.1) kv.2) in
  FromContext (add (WithLogger ctx l) others) = l ∧
  FromContext (add (WithLogger (add (WithLogger ctx l') others) l) others) = l ∧
  FromContext (add Background others) = Some DefaultLogger ∧
  logAttrs stack now (WithLogger ctx l) lvl msg attrs' p
  = logAttrs stack now ctx lvl msg attrs' p.
Proof.
  intros add.
  assert (∀ os c, FromContext (add c os) = FromContext c) as Hadd.
  { intros os. unfold add. induction os as [|kv os IH] using rev_ind; intros c; [done|].
    rewrite foldl_snoc. unfold FromContext in *. simpl. apply IH. }
  rewrite !Hadd. by repeat split.
Qed.

End FacadeProps.

(** ** Slices stay within their arrays *)

Section Validity.
Context `{GoLib}.

(** X19. Every operation of the package keeps slices valid: a slice that
    lies within its backing array still does, with the same elements, after
    [NewGCPHandler], [WithAttrs], [Handle] and [MergeGlobalExtraFields]; and
    the attribute slice of a handler made by [NewGCPHandler], [WithAttrs]
    (from a valid handler and a valid argument) or [WithGroup] lies within
    its array. *)
Theorem slices_stay_valid (t : slice) (s : World) :
  (∀ wr l, slice_ok (heap (NewGCPHandler wr l s).2) (attrs (NewGCPHandler wr l s).1)) ∧
  (∀ h a, slice_ok (heap s) (attrs h) → slice_ok (heap s) a →
     slice_ok (heap (WithAttrs h a s).2) (attrs (WithAttrs h a s).1)) ∧
  (∀ h g, slice_ok (heap s) (attrs h) → slice_ok (heap s) (attrs (WithGroup h g))) ∧
  (slice_ok (heap s) t →
   (∀ wr l, slice_ok (heap (NewGCPHandler wr l s).2) t ∧
            elems (heap (NewGCPHandler wr l s).2) t = elems (heap s) t) ∧
   (∀ h a, slice_ok (heap s) (attrs h) → slice_ok (heap s) a →
      slice_ok (heap (WithAttrs h a s).2) t ∧
      elems (heap (WithAttrs h a s).2) t = elems (heap s) t) ∧
   (∀ h r, slice_ok (heap (Handle h r s).2) t ∧
           elems (heap (Handle h r s).2) t = elems (heap s) t) ∧
   (∀ fields, slice_ok (heap (MergeGlobalExtraFields fields s)) t ∧
              elems (heap (MergeGlobalExtraFields fields s)) t = elems (heap s) t)).
Proof.
  split; [intros wr l; apply NewGCPHandler_no_attrs|].
  split; [intros h a Hh Ha; by apply WithAttrs_heap|].
  split; [done|]. intros Ht. split; [|split; [|split]].
  - intros wr l. destruct (NewGCPHandler_no_attrs wr l s) as (Hext & _ & _).
    split; [by apply (slice_ok_extends (heap s))|by apply elems_extends].
  - intros h a Hh Ha. destruct (WithAttrs_heap h a s Hh Ha) as (Hext & _ & _).
    split; [by apply (slice_ok_extends (heap s))|by apply elems_extends].
  - intros h r. by rewrite Handle_heap.
  - intros fields. by rewrite MergeGlobalExtraFields_world.
Qed.

End Validity.

(** ** The further properties at concrete inputs *)

Lemma WithAttrs_compose_witness :
  @buildEntry Sample.lib
    (WithAttrs (WithAttrs Cases.bare Cases.front2 Cases.four).1 Cases.back2
               (WithAttrs Cases.bare Cases.front2 Cases.four).2).1
    Cases.rec_b
    (WithAttrs (WithAttrs Cases.bare Cases.front2 Cases.four).1 Cases.back2
               (WithAttrs Cases.bare Cases.front2 Cases.four).2).2
  = @buildEntry Sample.lib (WithAttrs Cases.bare Cases.all4 Cases.four).1 Cases.rec_b
      (WithAttrs Cases.bare Cases.all4 Cases.four).2.
Proof.
  apply (WithAttrs_compose (H := Sample.lib) Cases.bare Cases.front2 Cases.back2
           Cases.all4 Cases.rec_b Cases.four).
  - vm_compute; lia.
  - vm_compute; lia.
  - vm_compute; lia.
  - vm_compute; lia.
  - reflexivity.
Defined.

Lemma WithAttrs_isolated_witness :
  elems (heap (WithAttrs Cases.holds2 Cases.none
                 (WithAttrs Cases.holds2 Cases.back2 Cases.four).2).2)
        (attrs (WithAttrs Cases.holds2 Cases.back2 Cases.four).1)
  = elems (heap Cases.four) (attrs Cases.holds2) ++ elems (heap Cases.four) Cases.back2.
Proof.
  apply (WithAttrs_isolated Cases.holds2 Cases.back2 Cases.none Cases.four).
  - vm_compute; lia.
  - vm_compute; lia.
  - vm_compute; lia.
Defined.

Lemma WithAttrs_empty_witness :
  @buildEntry Sample.lib (WithAttrs Cases.holds2 Cases.none Cases.four).1 Cases.rec_b
     (WithAttrs Cases.holds2 Cases.none Cases.four).2
  = @buildEntry Sample.lib Cases.holds2 Cases.rec_b Cases.four.
Proof.
  apply (WithAttrs_empty (H := Sample.lib) Cases.holds2 Cases.none Cases.rec_b Cases.four).
  - vm_compute; lia.
  - vm_compute; lia.
  - reflexivity.
Defined.

Lemma record_attrs_over_presets_witness :
  Context (@buildEntry Sample.lib Cases.holds2 Cases.rec_b Cases.four) !! "b"
  = Some (go_string "last") ∧
  Context (@buildEntry Sample.lib Cases.holds2 Cases.rec_b Cases.four) !! "a"
  = Some (go_int64 1).
Proof.
  destruct (record_attrs_over_presets (H := Sample.lib) Cases.holds2 Cases.rec_b
              Cases.four) as (Hlast & Hpreset & _).
  split.
  - apply (Hlast [mkAttr "b" (StringValue "first")] (mkAttr "b" (StringValue "last")) []);
      [reflexivity|constructor].
  - rewrite (Hpreset "a"); [reflexivity|]. repeat constructor; discriminate.
Defined.

Lemma unencodable_extra_silences_witness :
  written (@Handle Sample.lib Cases.holds2 Cases.rec_b
             (@Handle_all Sample.lib [(Cases.bare, Cases.rec_b)]
                (MergeGlobalExtraFields {["ratio" := go_float64 1]} Cases.four))).2
  = written Cases.four.
Proof.
  apply (unencodable_extra_silences (H := Sample.lib) {["ratio" := go_float64 1]}
           "ratio" (go_float64 1) [(Cases.bare, Cases.rec_b)] Cases.holds2 Cases.rec_b
           Cases.four).
  - reflexivity.
  - by eexists.
Defined.


Lemma Enabled_severity_floor_witness :
  severity_rank (levelToGCPSeverity (level Cases.holds2))
  ≤ severity_rank (levelToGCPSeverity LevelError).
Proof.
  apply (Enabled_severity_floor Cases.holds2 LevelError). reflexivity.
Defined.

Lemma logAttrs_call_site_witness :
  SourceLocation
    (@buildEntry Sample.lib Run.hx
       (mkRecord 5 "failed" LevelError (FPC (Sample.frames 7))
          (List.filter (λ a, negb (isEmptyGroup (Val a)))
             [mkAttr "empty" (GroupValue []); mkAttr "n" (Int64Value 3)]))
       Run.one_attr)
  = Some (mkSourceLocation "main.go" 12 "main.main").
Proof.
  destruct (logAttrs_call_site (H := Sample.lib) Run.app_stack 5 Background LevelError
              "failed" [mkAttr "empty" (GroupValue []); mkAttr "n" (Int64Value 3)]
              (mkPackage Run.one_attr (Some Run.hx)) Run.hx [1; 2]%N [9]%N 7%N)
    as (_ & Hloc & _).
  - reflexivity.
  - reflexivity.
  - reflexivity.
  - repeat constructor.
  - reflexivity.
  - apply Hloc; [by right|done].
Defined.

Lemma slices_stay_valid_witness :
  slice_ok (heap (WithAttrs Cases.holds2 Cases.back2 Cases.four).2) Cases.all4 ∧
  elems (heap (WithAttrs Cases.holds2 Cases.back2 Cases.four).2) Cases.all4
  = elems (heap Cases.four) Cases.all4.
Proof.
  destruct (slices_stay_valid (H := Sample.lib) Cases.all4 Cases.four)
    as (_ & _ & _ & Hkept).
  apply Hkept; vm_compute; lia.
Defined.
